(** * grubby: the tree-walking evaluator of [interpreter/vm/vm.go]

    A shallow embedding of the virtual machine of grubby (a Ruby
    interpreter written in Go) and the properties of its statement
    evaluator.

    - The syntax tree ([ast] package) is an inductive type with one
      constructor per node kind that [executeWithContext] switches on.
    - A Go interface value ([Value], [Class], [Module], [Method]) is
      either [nil] or a pointer: [option ref].
    - The [vm] struct is a record; its Go maps are [gmap]s.
    - The [builtins] package is consumed through an interface
      ([Builtins]): the evaluator is verified for every implementation
      of it, and [RefImpl] gives one implementation to run programs on.
    - Go code that mutates the [vm] is written in a state monad whose
      results are a normal return, a Go panic, or exhausted fuel. *)

From stdpp Require Import base option list strings gmap.
From Stdlib Require Import ZArith Lia.

Set Warnings "-register-all".
Open Scope string_scope.

(** ** Syntax tree (package [ast], as consumed by [vm.go]) *)

(** A [float64] literal, kept as its IEEE-754 bit pattern: the evaluator
    only hands it over to [NewFloat]. *)
Definition float64 := Z.

Inductive Node : Type :=
| IfBlock (Condition : Node) (Body Else : list Node)
| Alias (From To : string)
| ModuleDecl (Name : string) (Body : list Node)
| ClassDecl (Name : string) (Body : list Node)
| FuncDecl (Target : option Node) (Name : string)
           (Args : list (string * option Node)) (Body : list Node)
| SimpleString (Value : string)
| InterpolatedString (Value : string)
| Boolean (Value : bool)
| GlobalVariable (Name : string)
| ConstantInt (Value : Z)
| ConstantFloat (Value : float64)
| Symbol (Name : string)
| BareReference (Name : string)
| CallExpression (Target : option Node) (Func : string) (Args : list Node)
| Assignment (LHS RHS : Node)
| FileNameConstReference
| Begin (Body : list Node) (Rescue : list Node)
| Rescue (Classes : list string) (Body : list Node)
| Array (Nodes : list Node)
| Hash (Pairs : list (Node * Node))
| InstanceVariable (Name : string)
| Self
| OtherNode (kind : string).

(** Formal parameters of a method: a name and an optional default. *)
Definition MethodArg : Type := string * option Node.

(** ** Values and errors *)

Definition ref := positive.

(** A Go interface value holding a pointer to a runtime object. *)
Abbreviation Value := (option ref) (only parsing).

(** The Go [error] interface.  [RubyError] is an error that is also a
    [Value] (what [NewNameError], [NewNoMethodError] and [NewLoadError]
    build); [ParseError] is the struct of [vm.go]; [GoError] is any other
    error a builtin may return. *)
Inductive goerr : Type :=
| RubyError (v : ref)
| ParseError (Filename : string)
| GoError (msg : string).

Abbreviation error := (option goerr) (only parsing).

(** What a Go function of type [(Value, error)] returns. *)
Abbreviation result := (option ref * option goerr)%type (only parsing).

(** [ClassProvider]: [ClassWithName]. *)
Definition ClassProvider := string → Value.

(** The Go closures [vm.go] hands to [NewNativeMethod], and the native
    methods the builtins define themselves. *)
Inductive NativeFn : Type :=
| main_to_s
| main_require (loadPath : Value)
| alias_forward (m : Value)
| builtin_fn (id : string).

Inductive MethodImpl : Type :=
| NativeMethod (fn : NativeFn)
| RubyMethod (args : list MethodArg) (body : list Node).

(** ** Outcomes of Go code *)

Inductive outcome (A : Type) : Type :=
| Return (a : A)
| Panic (msg : string)
| OutOfFuel.
Arguments Return {A} a.
Arguments Panic {A} msg.
Arguments OutOfFuel {A}.

(** ** Call stack and local variable stack

    Modelled from the spec: [CallStack] and [localVariableStack] are
    types of this repository that [vm.go] uses and that are not part of
    the given sources.  A frame is a method or context name and the file
    name active when it was pushed; a scope maps local names to values
    and only the topmost scope is consulted. *)

Record Frame := { frame_name : string; frame_file : string }.

Definition CallStack := list Frame.

Definition Unshift (name file : string) (st : CallStack) : CallStack :=
  {| frame_name := name; frame_file := file |} :: st.

Definition Shift (st : CallStack) : CallStack := tail st.

Definition scope := gmap string Value.

Definition unshift (l : list scope) : list scope := ∅ :: l.

Definition shift (l : list scope) : list scope := tail l.

Definition store (name : string) (v : Value) (l : list scope) : list scope :=
  match l with
  | sc :: rest => <[name := v]> sc :: rest
  | [] => []
  end.

Definition retrieve (name : string) (l : list scope) : option Value :=
  match l with
  | sc :: _ => sc !! name
  | [] => None
  end.

(** ** The builtins package, as an interface

    Modelled from the spec: package [builtins] is not part of the given
    sources.  Each field is one function or method of that package with
    the signature [vm.go] calls it at; a function that receives the [vm]
    in Go receives it as a [ClassProvider].  Objects live in a [Heap];
    nothing in the package can reach the unexported stacks of the [vm]. *)

Class Builtins := {
  Heap : Type;
  (* constructors *)
  NewString : string → ClassProvider → Heap → Heap * ref;
  NewFixnum : Z → ClassProvider → Heap → Heap * ref;
  NewFloat : float64 → ClassProvider → Heap → Heap * ref;
  NewSymbol : string → ClassProvider → Heap → Heap * ref;
  NewModule : string → ClassProvider → Heap → Heap * ref;
  NewUserDefinedClass : string → ClassProvider → Heap → Heap * ref;
  NewNativeMethod : string → ClassProvider → NativeFn → Heap → Heap * ref;
  NewRubyMethod :
    string → list MethodArg → list Node → ClassProvider → Heap → Heap * ref;
  NewNameError : string → string → string → string → Heap → Heap * ref;
  NewNoMethodError : string → string → string → string → Heap → Heap * ref;
  NewLoadError : string → string → Heap → Heap * ref;
  (* Value *)
  Value_String : Heap → ref → string;
  Value_Class : Heap → ref → Value;
  Value_Method : ref → string → Heap → Heap * result;
  Value_PrivateMethod : ref → string → Heap → Heap * result;
  Value_AddMethod : ref → Value → Heap → Heap;
  Value_SetInstanceVariable : ref → string → Value → Heap → Heap;
  (* Class and Module *)
  Class_New : ref → ClassProvider → Heap → Heap * result;
  Module_InstanceMethod : ref → string → Heap → Heap * result;
  Module_AddInstanceMethod : ref → Value → Heap → Heap;
  Module_AddPrivateMethod : ref → Value → Heap → Heap;
  (* Array and Hash *)
  Array_Append : ref → Value → Heap → Heap;
  Array_Members : Heap → ref → list Value;
  Hash_Add : ref → Value → Value → Heap → Heap;
  (* Method *)
  Method_Name : Heap → ref → string;
  Method_Impl : Heap → ref → option MethodImpl;
  builtin_exec :
    string → ClassProvider → Value → list Value → Heap → Heap * outcome result;
  (* dynamic types: type assertions and type switches *)
  is_RubyModule : Heap → ref → bool;
  is_Class : Heap → ref → bool;
  is_Module : Heap → ref → bool;
  is_Array : Heap → ref → bool;
  is_Hash : Heap → ref → bool;
  is_StringValue : Heap → ref → bool;
  (* rendering of the call stack, most recent frame first *)
  CallStack_String : CallStack → string
}.

(** ** The host: parser and file system

    [RubyParse] stands for [parser.NewLexer] and [parser.RubyParse]: the
    statements it leaves in [parser.Statements], or [None] for a non-zero
    result.  [os_Open] tells whether a path can be opened and
    [ioutil_ReadAll] gives the contents of an opened file. *)

Class Host := {
  RubyParse : string → option (list Node);
  filepath_Join : string → string → string;
  os_Open : string → bool;
  ioutil_ReadAll : string → option string
}.

(** ** A state monad with outcomes

    [SO S A] is Go code that runs on a mutable state [S]: it returns
    normally, panics, or runs out of the fuel that bounds the recursion
    of the model.  A panic leaves the state as it was when it happened. *)

Definition SO (S A : Type) : Type := S → S * outcome A.

Definition ret {S A} (a : A) : SO S A := λ s, (s, Return a).

Definition bind {S A B} (m : SO S A) (k : A → SO S B) : SO S B :=
  λ s, match m s with
       | (s', Return a) => k a s'
       | (s', Panic msg) => (s', Panic msg)
       | (s', OutOfFuel) => (s', OutOfFuel)
       end.

Definition panic {S A} (msg : string) : SO S A := λ s, (s, Panic msg).

Definition out_of_fuel {S A} : SO S A := λ s, (s, OutOfFuel).

Definition get {S} : SO S S := λ s, (s, Return s).

Definition modify {S} (f : S → S) : SO S unit := λ s, (f s, Return tt).

Inductive ctl (A : Type) : Type :=
| Next (a : A)
| ReturnWith (r : result).
Arguments Next {A} a.
Arguments ReturnWith {A} r.

(** Sequencing of code that may execute a [return]. *)
Definition bindc {S A B} (m : SO S (ctl A)) (k : A → SO S (ctl B))
  : SO S (ctl B) :=
  bind m (λ c, match c with
               | Next a => k a
               | ReturnWith r => ret (ReturnWith r)
               end).

Declare Scope go_scope.
Delimit Scope go_scope with go.
Notation "'let*' x := m 'in' k" := (bind m (λ x, k))
  (at level 10, x pattern, m at level 99, k at level 200, only parsing)
  : go_scope.
Notation "'let?' x := m 'in' k" := (bindc m (λ x, k))
  (at level 10, x pattern, m at level 99, k at level 200, only parsing)
  : go_scope.
Notation "m ;; k" := (bind m (λ _, k))
  (at level 100, k at level 200, only parsing, right associativity)
  : go_scope.
Open Scope go_scope.

(** Running a computation on a component of the state. *)
Definition zoom {S T A} (proj : S → T) (inj : T → S → S) (m : SO T A)
  : SO S A :=
  λ s, let '(t, o) := m (proj s) in (inj t s, o).

(** [defer cleanup()] at the head of [m]: the cleanup runs when [m] is
    left, by a return or by a panic. *)
Definition defer_ {S A} (cleanup : S → S) (m : SO S A) : SO S A :=
  λ s, let '(s', o) := m s in (cleanup s', o).

(** [for _, x := range xs { body }] where the body may [return]. *)
Fixpoint range {S A X} (xs : list X) (body : A → X → SO S (ctl A)) (acc : A)
  : SO S (ctl A) :=
  match xs with
  | [] => ret (Next acc)
  | x :: rest => let? acc' := body acc x in range rest body acc'
  end.

Definition nil_dereference {S A} : SO S A :=
  panic "invalid memory address or nil pointer dereference".

(** Calling a method on an interface value: [nil] panics. *)
Definition deref {S} (v : Value) : SO S ref :=
  match v with
  | Some r => ret r
  | None => nil_dereference
  end.

(** [m[k]] on a Go map of interface values: [nil] when [k] is absent. *)
Definition index (m : gmap string Value) (k : string) : Value :=
  default None (m !! k).

(** ** The virtual machine *)

Section VM.
Context `{Builtins} `{Host}.

(** The [vm] struct; [heap] holds the objects its values point to. *)
Record vm := {
  currentFilename : string;
  stack : CallStack;
  ObjectSpace : gmap string Value;
  CurrentGlobals : gmap string Value;
  CurrentSymbols : gmap string Value;
  CurrentClasses : gmap string Value;
  CurrentModules : gmap string Value;
  localVariableStack : list scope;
  heap : Heap
}.

Definition set_currentFilename (f : string → string) (s : vm) : vm :=
  {| currentFilename := f (currentFilename s); stack := stack s;
     ObjectSpace := ObjectSpace s; CurrentGlobals := CurrentGlobals s;
     CurrentSymbols := CurrentSymbols s; CurrentClasses := CurrentClasses s;
     CurrentModules := CurrentModules s;
     localVariableStack := localVariableStack s; heap := heap s |}.

Definition set_stack (f : CallStack → CallStack) (s : vm) : vm :=
  {| currentFilename := currentFilename s; stack := f (stack s);
     ObjectSpace := ObjectSpace s; CurrentGlobals := CurrentGlobals s;
     CurrentSymbols := CurrentSymbols s; CurrentClasses := CurrentClasses s;
     CurrentModules := CurrentModules s;
     localVariableStack := localVariableStack s; heap := heap s |}.

Definition set_ObjectSpace (f : gmap string Value → gmap string Value)
    (s : vm) : vm :=
  {| currentFilename := currentFilename s; stack := stack s;
     ObjectSpace := f (ObjectSpace s); CurrentGlobals := CurrentGlobals s;
     CurrentSymbols := CurrentSymbols s; CurrentClasses := CurrentClasses s;
     CurrentModules := CurrentModules s;
     localVariableStack := localVariableStack s; heap := heap s |}.

Definition set_CurrentGlobals (f : gmap string Value → gmap string Value)
    (s : vm) : vm :=
  {| currentFilename := currentFilename s; stack := stack s;
     ObjectSpace := ObjectSpace s; CurrentGlobals := f (CurrentGlobals s);
     CurrentSymbols := CurrentSymbols s; CurrentClasses := CurrentClasses s;
     CurrentModules := CurrentModules s;
     localVariableStack := localVariableStack s; heap := heap s |}.

Definition set_CurrentSymbols (f : gmap string Value → gmap string Value)
    (s : vm) : vm :=
  {| currentFilename := currentFilename s; stack := stack s;
     ObjectSpace := ObjectSpace s; CurrentGlobals := CurrentGlobals s;
     CurrentSymbols := f (CurrentSymbols s); CurrentClasses := CurrentClasses s;
     CurrentModules := CurrentModules s;
     localVariableStack := localVariableStack s; heap := heap s |}.

Definition set_CurrentClasses (f : gmap string Value → gmap string Value)
    (s : vm) : vm :=
  {| currentFilename := currentFilename s; stack := stack s;
     ObjectSpace := ObjectSpace s; CurrentGlobals := CurrentGlobals s;
     CurrentSymbols := CurrentSymbols s; CurrentClasses := f (CurrentClasses s);
     CurrentModules := CurrentModules s;
     localVariableStack := localVariableStack s; heap := heap s |}.

Definition set_CurrentModules (f : gmap string Value → gmap string Value)
    (s : vm) : vm :=
  {| currentFilename := currentFilename s; stack := stack s;
     ObjectSpace := ObjectSpace s; CurrentGlobals := CurrentGlobals s;
     CurrentSymbols := CurrentSymbols s; CurrentClasses := CurrentClasses s;
     CurrentModules := f (CurrentModules s);
     localVariableStack := localVariableStack s; heap := heap s |}.

Definition set_localVariableStack (f : list scope → list scope) (s : vm) : vm :=
  {| currentFilename := currentFilename s; stack := stack s;
     ObjectSpace := ObjectSpace s; CurrentGlobals := CurrentGlobals s;
     CurrentSymbols := CurrentSymbols s; CurrentClasses := CurrentClasses s;
     CurrentModules := CurrentModules s;
     localVariableStack := f (localVariableStack s); heap := heap s |}.

Definition set_heap (f : Heap → Heap) (s : vm) : vm :=
  {| currentFilename := currentFilename s; stack := stack s;
     ObjectSpace := ObjectSpace s; CurrentGlobals := CurrentGlobals s;
     CurrentSymbols := CurrentSymbols s; CurrentClasses := CurrentClasses s;
     CurrentModules := CurrentModules s;
     localVariableStack := localVariableStack s; heap := f (heap s) |}.

(** Code of the [vm]'s methods. *)
Definition M := SO vm.

(** [ClassWithName] (vm.go:550). *)
Definition ClassWithName (s : vm) : ClassProvider :=
  λ name, index (CurrentClasses s) name.

(** A builtin that allocates or looks up in the heap. *)
Definition onHeap {A} (f : Heap → Heap * A) : M A :=
  λ s, let '(h, a) := f (heap s) in (set_heap (λ _, h) s, Return a).

(** A builtin that is handed the [vm] as its class provider. *)
Definition withProvider {A} (f : ClassProvider → Heap → Heap * A) : M A :=
  λ s, onHeap (f (ClassWithName s)) s.

(** A builtin method that only updates its receiver. *)
Definition update (f : Heap → Heap) : M unit := modify (set_heap f).

(** A type assertion of [v] to a pointer type [T]: panics unless [v] has
    dynamic type [T]. *)
Definition assert_type (is_T : Heap → ref → bool) (v : Value) : M ref :=
  let* s := get in
  match v with
  | Some r =>
      if is_T (heap s) r then ret r else panic "interface conversion"
  | None => panic "interface conversion: interface is nil"
  end.

(** The variables of one activation of [executeWithContext]: its
    named results, and the number of [defer vm.stack.Shift()] it has
    registered so far. *)
Record locals := {
  returnValue : Value;
  returnErr : error;
  deferred : nat
}.

(** Code of the body of [executeWithContext]. *)
Definition L := SO (vm * locals).

Definition inVM {A} (m : M A) : L A :=
  zoom fst (λ s' sl, (s', sl.2)) m.

Definition getVM : L vm := let* sl := get in ret sl.1.

Definition getLocals : L locals := let* sl := get in ret sl.2.

Definition setReturnValue (v : Value) : L unit :=
  modify (λ sl, (sl.1, {| returnValue := v; returnErr := returnErr sl.2;
                          deferred := deferred sl.2 |})).

Definition setReturnErr (e : error) : L unit :=
  modify (λ sl, (sl.1, {| returnValue := returnValue sl.2; returnErr := e;
                          deferred := deferred sl.2 |})).

(** [defer vm.stack.Shift()] *)
Definition defer_Shift : L unit :=
  modify (λ sl, (sl.1, {| returnValue := returnValue sl.2;
                          returnErr := returnErr sl.2;
                          deferred := S (deferred sl.2) |})).

(** [return returnValue, returnErr] *)
Definition return_locals {A} : L (ctl A) :=
  let* l := getLocals in ret (ReturnWith (returnValue l, returnErr l)).

Definition next : L (ctl unit) := ret (Next tt).

(** ** [executeWithContext] (vm.go:257-547)

    The cases of the type switch, each parameterised by the recursive
    calls it makes: [exec] is [vm.executeWithContext] and [Execute] is
    [method.Execute]. *)

Section Statement.
Variable exec : Value → list Node → M result.
Variable Execute : Value → Value → list Value → M result.
Variable context : Value.

(** vm.go:265-274: the condition of an [ast.IfBlock] is inspected, not
    evaluated. *)
Definition truthy (Condition : Node) : bool :=
  match Condition with
  | Boolean Value => Value
  | BareReference Name => String.eqb Name "nil"
  | _ => true
  end.

(** vm.go:264-280 *)
Definition exec_IfBlock (Condition : Node) (Body Else : list Node)
  : L (ctl unit) :=
  let* r := inVM (if truthy Condition
                  then exec context Body
                  else exec context Else) in
  setReturnValue r.1 ;; setReturnErr r.2 ;; next.

(** vm.go:281-294 *)
Definition exec_Alias (From To : string) : L (ctl unit) :=
  let* contextModule := inVM (assert_type is_RubyModule context) in
  let* me := inVM (onHeap (Module_InstanceMethod contextModule From)) in
  match me.2 with
  | Some _ =>
      let* s := getVM in
      let* e := inVM (onHeap (NewNameError From
                  (Value_String (heap s) contextModule)
                  (Value_String (heap s) contextModule)
                  (CallStack_String (stack s)))) in
      setReturnErr (Some (RubyError e)) ;;
      return_locals
  | None =>
      let* w := inVM (withProvider
                  (λ p, NewNativeMethod To p (alias_forward me.1))) in
      inVM (update (Module_AddInstanceMethod contextModule (Some w))) ;;
      next
  end.

(** vm.go:296-306 *)
Definition exec_ModuleDecl (Name : string) (Body : list Node) : L (ctl unit) :=
  let* theModule := inVM (withProvider (NewModule Name)) in
  inVM (modify (set_CurrentModules <[Name := Some theModule]>)) ;;
  let* r := inVM (exec (Some theModule) Body) in
  match r.2 with
  | Some _ => setReturnErr r.2
  | None => ret tt
  end ;;
  setReturnValue (Some theModule) ;;
  next.

(** vm.go:308-316 *)
Definition exec_ClassDecl (Name : string) (Body : list Node) : L (ctl unit) :=
  let* theClass := inVM (withProvider (NewUserDefinedClass Name)) in
  inVM (modify (set_CurrentClasses <[Name := Some theClass]>)) ;;
  let* r := inVM (exec (Some theClass) Body) in
  match r.2 with
  | Some _ => setReturnErr r.2
  | None => ret tt
  end ;;
  next.

(** vm.go:318-354; the closure handed to [NewRubyMethod] is
    [RubyMethod_closure] below. *)
Definition exec_FuncDecl (Target : option Node) (Name : string)
    (Args : list MethodArg) (Body : list Node) : L (ctl unit) :=
  let* method := inVM (withProvider (NewRubyMethod Name Args Body)) in
  setReturnValue (Some method) ;;
  let* s := getVM in
  if decide (context = index (ObjectSpace s) "main") then
    let* kernel := deref (index (CurrentModules s) "Kernel") in
    inVM (update (Module_AddPrivateMethod kernel (Some method))) ;;
    next
  else
    match context with
    | Some c =>
        if is_Class (heap s) c then
          inVM (update (Module_AddInstanceMethod c (Some method))) ;; next
        else if is_Module (heap s) c then
          match Target with
          | Some Self => inVM (update (Value_AddMethod c (Some method))) ;; next
          | _ => inVM (update (Module_AddInstanceMethod c (Some method))) ;;
                 next
          end
        else panic "unknown type of context"
    | None => panic "unknown type of context"
    end.

(** vm.go:356-359 and 477-478 *)
Definition exec_String (Value : string) : L (ctl unit) :=
  let* v := inVM (withProvider (NewString Value)) in
  setReturnValue (Some v) ;; next.

(** vm.go:360-365 *)
Definition exec_Boolean (Value : bool) : L (ctl unit) :=
  let* s := getVM in
  let* cls := deref (index (CurrentClasses s) (if Value then "True" else "False")) in
  let* r := inVM (withProvider (Class_New cls)) in
  setReturnValue r.1 ;; setReturnErr r.2 ;; next.

(** vm.go:366-367 *)
Definition exec_GlobalVariable (Name : string) : L (ctl unit) :=
  let* s := getVM in
  setReturnValue (index (CurrentGlobals s) Name) ;; next.

(** vm.go:368-369 *)
Definition exec_ConstantInt (Value : Z) : L (ctl unit) :=
  let* v := inVM (withProvider (NewFixnum Value)) in
  setReturnValue (Some v) ;; next.

(** vm.go:370-371 *)
Definition exec_ConstantFloat (Value : float64) : L (ctl unit) :=
  let* v := inVM (withProvider (NewFloat Value)) in
  setReturnValue (Some v) ;; next.

(** vm.go:372-380 *)
Definition exec_Symbol (name : string) : L (ctl unit) :=
  let* s := getVM in
  match CurrentSymbols s !! name with
  | None =>
      let* v := inVM (withProvider (NewSymbol name)) in
      setReturnValue (Some v) ;;
      inVM (modify (set_CurrentSymbols <[name := Some v]>)) ;;
      next
  | Some maybe => setReturnValue maybe ;; next
  end.

(** vm.go:399-400 *)
Definition name_undefined (name : string) : L (ctl unit) :=
  setReturnValue None ;;
  let* c := deref context in
  let* s := getVM in
  let* cls := deref (Value_Class (heap s) c) in
  let* e := inVM (onHeap (NewNameError name
              (Value_String (heap s) c)
              (Value_String (heap s) cls)
              (CallStack_String (stack s)))) in
  setReturnErr (Some (RubyError e)) ;; next.

(** vm.go:381-404 *)
Definition exec_BareReference (name : string) : L (ctl unit) :=
  let* s := getVM in
  match retrieve name (localVariableStack s) with
  | Some maybe => setReturnValue maybe ;; next
  | None =>
      match ObjectSpace s !! name with
      | Some maybe => setReturnValue maybe ;; next
      | None =>
          match CurrentClasses s !! name with
          | Some maybe => setReturnValue maybe ;; next
          | None =>
              match CurrentModules s !! name with
              | Some maybe => setReturnValue maybe ;; next
              | None => name_undefined name
              end
          end
      end
  end.

(** vm.go:438-446: the arguments, left to right. *)
Definition evalArgs (Args : list Node) : M (ctl (list Value)) :=
  range Args
    (λ args astArgument,
       let* r := exec context [astArgument] in
       match r.2 with
       | Some _ => ret (ReturnWith (None, r.2))
       | None => ret (Next (args ++ [r.1])%list)
       end)
    ([] : list Value).

(** vm.go:424-427 *)
Definition nil_target (Func : string) : L (ctl unit) :=
  let* s := getVM in
  let* nilClass := deref (index (CurrentClasses s) "Nil") in
  let* nv := inVM (withProvider (Class_New nilClass)) in
  let* nilValue := deref nv.1 in
  let* s := getVM in
  let* cls := deref (Value_Class (heap s) nilValue) in
  let* e := inVM (onHeap (NewNoMethodError Func
              (Value_String (heap s) nilValue)
              (Value_String (heap s) cls)
              (CallStack_String (stack s)))) in
  ret (ReturnWith (None, Some (RubyError e))).

(** vm.go:429-432 *)
Definition resolve (target : ref) (Func : string) (usePrivateMethod : bool)
  : M result :=
  let* me := onHeap (Value_Method target Func) in
  match me.2 with
  | Some _ =>
      if usePrivateMethod
      then onHeap (Value_PrivateMethod target Func)
      else ret me
  | None => ret me
  end.

(** vm.go:405-454 *)
Definition exec_CallExpression (Target : option Node) (Func : string)
    (Args : list Node) : L (ctl unit) :=
  let? tu :=
    match Target with
    | Some t =>
        let* r := inVM (exec context [t]) in
        setReturnErr r.2 ;;
        match r.2 with
        | Some _ => ret (ReturnWith (None, r.2))
        | None => ret (Next (r.1, false))
        end
    | None => ret (Next (context, true))
    end in
  match tu.1 with
  | None => nil_target Func
  | Some target =>
      let* me := inVM (resolve target Func tu.2) in
      match me.2 with
      | Some _ => ret (ReturnWith (None, me.2))
      | None =>
          let? args := inVM (evalArgs Args) in
          let* s := getVM in
          let* m := deref me.1 in
          inVM (modify (set_stack
                  (Unshift (Method_Name (heap s) m) (currentFilename s)))) ;;
          defer_Shift ;;
          let* r := inVM (Execute me.1 (Some target) args) in
          setReturnValue r.1 ;; setReturnErr r.2 ;;
          match r.2 with
          | Some _ => return_locals
          | None => next
          end
      end
  end.

(** vm.go:456-475.  The [:=] of line 458 declares a [returnValue] of
    its own: the named result of the function is not assigned. *)
Definition exec_Assignment (LHS RHS : Node) : L (ctl unit) :=
  let* r := inVM (exec context [RHS]) in
  match r.2 with
  | Some _ => ret (ReturnWith (None, r.2))
  | None =>
      match LHS with
      | BareReference Name =>
          inVM (modify (set_ObjectSpace <[Name := r.1]>)) ;; next
      | GlobalVariable Name =>
          inVM (modify (set_CurrentGlobals <[Name := r.1]>)) ;; next
      | InstanceVariable Name =>
          let* c := deref context in
          inVM (update (Value_SetInstanceVariable c Name r.1)) ;; next
      | _ => panic "unimplemented assignment failure"
      end
  end.

(** vm.go:492-500: the exception classes of one rescue clause.  The
    answer is the current [err] and [matchingRescue]. *)
Fixpoint rescueClasses (rubyErr : ref) (Body : list Node)
    (Classes : list string) (err : error) : M (error * bool) :=
  match Classes with
  | [] => ret (err, false)
  | exceptionClass :: rest =>
      let* s := get in
      if String.eqb exceptionClass (Value_String (heap s) rubyErr) then
        let* r := exec context Body in
        match r.2 with
        | None => ret (None, true)
        | Some _ => rescueClasses rubyErr Body rest r.2
        end
      else rescueClasses rubyErr Body rest err
  end.

(** vm.go:486-501: the rescue clauses. *)
Fixpoint rescueClauses (rubyErr : ref) (rescues : list Node)
    (err : error) (matchingRescue : bool) : M error :=
  match rescues with
  | [] => ret err
  | rescue :: rest =>
      if matchingRescue then ret err
      else
        match rescue with
        | Rescue Classes Body =>
            let* em := rescueClasses rubyErr Body Classes err in
            rescueClauses rubyErr rest em.1 em.2
        | _ => panic "interface conversion: ast.Node is not ast.Rescue"
        end
  end.

(** vm.go:479-506 *)
Definition exec_Begin (Body : list Node) (rescues : list Node)
  : L (ctl unit) :=
  let* r := inVM (exec context Body) in
  let* err :=
    match r.2 with
    | None => ret None
    | Some (RubyError rubyErr) =>
        inVM (rescueClauses rubyErr rescues r.2 false)
    | Some _ => panic "interface conversion: error is not builtins.Value"
    end in
  match err with
  | Some _ => setReturnErr err
  | None => ret tt
  end ;;
  next.

(** vm.go:507-519 *)
Definition exec_Array (Nodes : list Node) : L (ctl unit) :=
  let* s := getVM in
  let* cls := deref (index (CurrentClasses s) "Array") in
  let* av := inVM (withProvider (Class_New cls)) in
  let* array := inVM (assert_type is_Array av.1) in
  let? _ := inVM (range Nodes
              (λ _ node,
                 let* r := exec context [node] in
                 match r.2 with
                 | Some _ => ret (ReturnWith (None, r.2))
                 | None => update (Array_Append array r.1) ;; ret (Next tt)
                 end)
              tt) in
  setReturnValue (Some array) ;; next.

(** vm.go:524-538: the pairs of a hash literal; the answer is the error
    the loop was left with, if any. *)
Fixpoint hashPairs (hash : ref) (Pairs : list (Node * Node)) : M error :=
  match Pairs with
  | [] => ret None
  | keyPair :: rest =>
      let* k := exec context [keyPair.1] in
      match k.2 with
      | Some _ => ret k.2
      | None =>
          let* v := exec context [keyPair.2] in
          match v.2 with
          | Some _ => ret v.2
          | None => update (Hash_Add hash k.1 v.1) ;; hashPairs hash rest
          end
      end
  end.

(** vm.go:521-540 *)
Definition exec_Hash (Pairs : list (Node * Node)) : L (ctl unit) :=
  let* s := getVM in
  let* cls := deref (index (CurrentClasses s) "Hash") in
  let* hv := inVM (withProvider (Class_New cls)) in
  let* hash := inVM (assert_type is_Hash hv.1) in
  let* err := inVM (hashPairs hash Pairs) in
  match err with
  | Some _ => setReturnErr err
  | None => ret tt
  end ;;
  setReturnValue (Some hash) ;; next.

(** vm.go:263-543: the type switch. *)
Definition executeStatement (statement : Node) : L (ctl unit) :=
  match statement with
  | IfBlock Condition Body Else => exec_IfBlock Condition Body Else
  | Alias From To => exec_Alias From To
  | ModuleDecl Name Body => exec_ModuleDecl Name Body
  | ClassDecl Name Body => exec_ClassDecl Name Body
  | FuncDecl Target Name Args Body => exec_FuncDecl Target Name Args Body
  | SimpleString Value => exec_String Value
  | InterpolatedString Value => exec_String Value
  | Boolean Value => exec_Boolean Value
  | GlobalVariable Name => exec_GlobalVariable Name
  | ConstantInt Value => exec_ConstantInt Value
  | ConstantFloat Value => exec_ConstantFloat Value
  | Symbol Name => exec_Symbol Name
  | BareReference Name => exec_BareReference Name
  | CallExpression Target Func Args => exec_CallExpression Target Func Args
  | Assignment LHS RHS => exec_Assignment LHS RHS
  | FileNameConstReference =>
      let* s := getVM in exec_String (currentFilename s)
  | Begin Body rescues => exec_Begin Body rescues
  | Array Nodes => exec_Array Nodes
  | Hash Pairs => exec_Hash Pairs
  | Rescue _ _ | InstanceVariable _ | Self | OtherNode _ =>
      panic "handled unknown statement type"
  end.

(** vm.go:262-546: the loop over the statements and the final
    [return returnValue, returnErr]. *)
Definition statements_loop (statements : list Node) : L result :=
  let* c := range statements (λ _ statement, executeStatement statement) tt in
  match c with
  | Next _ => let* l := getLocals in ret (returnValue l, returnErr l)
  | ReturnWith r => ret r
  end.

End Statement.

(** The named results start as [nil], and nothing is deferred. *)
Definition entry : locals :=
  {| returnValue := None; returnErr := None; deferred := 0 |}.

(** One activation of [executeWithContext]: the deferred
    [vm.stack.Shift()] calls run when the function is left. *)
Definition executeWithContext_body
    (exec : Value → list Node → M result)
    (Execute : Value → Value → list Value → M result)
    (context : Value) (statements : list Node) : M result :=
  λ s, let '(sl, o) := statements_loop exec Execute context statements
                         (s, entry) in
       (set_stack (Nat.iter (deferred sl.2) Shift) sl.1, o).

(** ** Methods *)

Section Method.
Variable exec : Value → list Node → M result.
Variable Execute : Value → Value → list Value → M result.
Variable Run : string → M result.

(** Modelled from the spec: [RubyMethod.Execute] is not part of the
    given sources.  A user-defined method has an ordered list of formal
    parameters with optional default-value expressions: the i-th argument
    is bound to the i-th formal, and a formal left without an argument
    takes its default, evaluated against the receiver through
    [EvaluateArgInContext] (vm.go:555), or [nil]. *)
Fixpoint bindArgs (self : Value) (formals : list MethodArg)
    (args : list Value) : M (ctl (list (string * Value))) :=
  match formals with
  | [] => ret (Next [])
  | formal :: formals' =>
      match args with
      | arg :: args' =>
          let? bound := bindArgs self formals' args' in
          ret (Next ((formal.1, arg) :: bound))
      | [] =>
          let? v :=
            match formal.2 with
            | Some dflt =>
                let* r := exec self [dflt] in
                match r.2 with
                | Some _ => ret (ReturnWith (None, r.2))
                | None => ret (Next r.1)
                end
            | None => ret (Next None)
            end in
          let? bound := bindArgs self formals' [] in
          ret (Next ((formal.1, v) :: bound))
      end
  end.

(** vm.go:326-335: the closure of a user-defined method. *)
Definition RubyMethod_closure (self : Value) (Args : list (string * Value))
    (Body : list Node) : M result :=
  modify (set_localVariableStack unshift) ;;
  defer_ (set_localVariableStack shift)
    (range Args
       (λ _ arg,
          modify (set_localVariableStack (store arg.1 arg.2)) ;;
          ret (Next tt))
       tt ;;
     exec self Body).

(** vm.go:77-101: one load-path entry. *)
Definition require_from (fileName : string) (pathStr : Value)
  : M (ctl unit) :=
  let* path := assert_type is_StringValue pathStr in
  let* s := get in
  let fullPath :=
    filepath_Join (Value_String (heap s) path) (fileName ++ ".rb") in
  if os_Open fullPath then
    match ioutil_ReadAll fullPath with
    | Some contents =>
        let originalName := currentFilename s in
        defer_ (set_currentFilename (λ _, originalName))
          (modify (set_currentFilename (λ _, fullPath)) ;;
           let* r := Run contents in
           match r.2 with
           | Some _ => ret (ReturnWith (None, r.2))
           | None =>
               let* s := get in
               let* cls := deref (index (CurrentClasses s) "True") in
               let* t := withProvider (Class_New cls) in
               ret (ReturnWith t)
           end)
    | None => ret (Next tt)
    end
  else ret (Next tt).

(** vm.go:103-104 *)
Definition cannot_load (fileName : string) : M result :=
  let* s := get in
  let errorMessage := "LoadError: cannot load such file -- " ++ fileName in
  let* e := onHeap (NewLoadError errorMessage (CallStack_String (stack s))) in
  ret (None, Some (RubyError e)).

(** vm.go:70-105: the [require] method of [main]; [loadPath] is the
    array the closure captured in [NewVM]. *)
Definition require (loadPath : Value) (self : Value) (args : list Value)
  : M result :=
  let* arg0 := match args with
               | arg :: _ => ret arg
               | [] => panic "index out of range"
               end in
  let* str := assert_type is_StringValue arg0 in
  let* s := get in
  let fileName := Value_String (heap s) str in
  if String.eqb fileName "rubygems" then
    let* cls := deref (index (CurrentClasses s) "False") in
    withProvider (Class_New cls)
  else
    let* lp := assert_type is_Array loadPath in
    let* c := range (Array_Members (heap s) lp)
                (λ _ pathStr, require_from fileName pathStr) tt in
    match c with
    | ReturnWith r => ret r
    | Next _ => cannot_load fileName
    end.

(** [method.Execute(self, args...)].  The native closures are those of
    vm.go:67-69, 70-105 and 292-294.  Modelled from the spec: that a
    native method runs its Go function and a user-defined one binds its
    arguments and runs its closure is code of package [builtins]. *)
Definition Execute_body (method : Value) (self : Value) (args : list Value)
  : M result :=
  let* m := deref method in
  let* s := get in
  match Method_Impl (heap s) m with
  | Some (NativeMethod main_to_s) =>
      let* v := withProvider (NewString "main") in ret (Some v, None)
  | Some (NativeMethod (main_require loadPath)) => require loadPath self args
  | Some (NativeMethod (alias_forward m')) => Execute m' self args
  | Some (NativeMethod (builtin_fn id)) =>
      λ s, let '(h, o) := builtin_exec id (ClassWithName s) self args (heap s)
           in (set_heap (λ _, h) s, o)
  | Some (RubyMethod formals body) =>
      let* b := bindArgs self formals args in
      match b with
      | ReturnWith r => ret r
      | Next bound => RubyMethod_closure self bound body
      end
  | None => panic "value is not a Method"
  end.

End Method.

(** vm.go:240-255 *)
Definition Run_body (exec : Value → list Node → M result) (input : string)
  : M result :=
  match RubyParse input with
  | None =>
      let* s := get in ret (None, Some (ParseError (currentFilename s)))
  | Some Statements =>
      let* s := get in
      let main := index (ObjectSpace s) "main" in
      modify (set_stack (Unshift "main" (currentFilename s))) ;;
      defer_ (set_stack Shift)
        (modify (set_localVariableStack unshift) ;;
         defer_ (set_localVariableStack shift)
           (exec main Statements))
  end.

(** The recursion of the evaluator, bounded by [fuel]: every call of
    [executeWithContext] and of [Execute] costs one unit. *)
Fixpoint executeWithContext (fuel : nat) (context : Value)
    (statements : list Node) {struct fuel} : M result :=
  match fuel with
  | 0 => out_of_fuel
  | S n => executeWithContext_body (executeWithContext n) (Execute n)
             context statements
  end
with Execute (fuel : nat) (method : Value) (self : Value) (args : list Value)
    {struct fuel} : M result :=
  match fuel with
  | 0 => out_of_fuel
  | S n => Execute_body (executeWithContext n) (Execute n)
             (Run_body (executeWithContext n)) method self args
  end.

Definition Run (fuel : nat) (input : string) : M result :=
  Run_body (executeWithContext fuel) input.

(** vm.go:555-557 *)
Definition EvaluateArgInContext (fuel : nat) (arg : Node) (context : Value)
  : M result :=
  executeWithContext fuel context [arg].

(** ** The registries, as the host reads and writes them *)

(** vm.go:164-186 *)
Definition Get (key : string) (s : vm) : result :=
  match ObjectSpace s !! key with
  | Some val => (val, None)
  | None =>
      match CurrentGlobals s !! key with
      | Some val => (val, None)
      | None =>
          match CurrentClasses s !! key with
          | Some class => (class, None)
          | None =>
              match CurrentModules s !! key with
              | Some module => (module, None)
              | None => (None, Some (GoError ("'" ++ key ++ "' is undefined")))
              end
          end
      end
  end.



(** vm.go:208-210 *)
Definition Set_ (key : string) (value : Value) : vm → vm :=
  set_ObjectSpace <[key := value]>.

Section Classes.

(** [Class.Name()], a method of package [builtins]. *)
Variable Class_Name : Heap → ref → string.

(** vm.go:189-193 and 199-203: the loop over [vm.CurrentClasses].  Go
    visits the entries of a map in an order of its choosing: [visited]
    is the entries in the order of this visit.  The answer is the class
    the loop returns, if it returns one. *)
Fixpoint find_class (h : Heap) (name : string)
    (visited : list (string * Value)) : outcome (option ref) :=
  match visited with
  | [] => Return None
  | (_, class) :: rest =>
      match class with
      | Some c =>
          if String.eqb (Class_Name h c) name then Return (Some c)
          else find_class h name rest
      | None => Panic "invalid memory address or nil pointer dereference"
      end
  end.

(** vm.go:188-196 *)
Definition GetClass (visited : list (string * Value)) (name : string)
    (s : vm) : outcome result :=
  match find_class (heap s) name visited with
  | Return (Some c) => Return (Some c, None)
  | Return None =>
      Return (None, Some (GoError ("Class '" ++ name ++ "' not found")))
  | Panic msg => Panic msg
  | OutOfFuel => OutOfFuel
  end.

(** vm.go:198-206 *)
Definition MustGetClass (visited : list (string * Value)) (name : string)
    (s : vm) : outcome Value :=
  match find_class (heap s) name visited with
  | Return (Some c) => Return (Some c)
  | Return None =>
      Panic ("class '" ++ name ++ "' requested, but does not exist")
  | Panic msg => Panic msg
  | OutOfFuel => OutOfFuel
  end.

End Classes.

End VM.

(** ** The command line (package [main])

    What [main] prints of the parser's trace after a parse error: all of
    [parser.DebugStatements] when there are at most [threshold] of them,
    and the last [threshold] otherwise. *)

Definition threshold : nat := 61.

Definition reported (debugStatements : list string) : list string :=
  let debugCount := length debugStatements in
  if (debugCount <=? threshold)%nat then debugStatements
  else drop (debugCount - threshold) debugStatements.

(** ** A reference implementation of the builtins

    Modelled from the spec: package [builtins] is not part of the given
    sources.  This implementation follows the data model of the spec: a
    value has a class, a table of instance attributes and tables of
    methods; a class has a superclass and a list of included modules,
    most recent first; a method is looked up on the value itself, then
    on its class, on the modules the class includes and up the chain of
    superclasses.  It serves to run the evaluator on concrete programs. *)

Module RefImpl.

Inductive Table := Own | Private | Instance.

Global Instance Table_eq_dec : EqDecision Table.
Proof. solve_decision. Defined.

Inductive Data : Type :=
| DObject
| DClass (name : string) (superclass : Value) (includes : list Value)
| DModule (name : string) (includes : list Value)
| DString (s : string)
| DFixnum (z : Z)
| DFloat (f : float64)
| DSymbol (name : string)
| DArray (members : list Value)
| DHash (pairs : list (Value * Value))
| DMethod (name : string) (impl : MethodImpl)
| DError (kind message backtrace : string).

Record Object := {
  data : Data;
  class : Value;
  table : Table → gmap string Value;
  ivars : gmap string Value
}.

Record heap_ := {
  objects : gmap ref Object;
  fresh : ref
}.

Definition empty_heap : heap_ := {| objects := ∅; fresh := 1%positive |}.

Definition object (d : Data) (c : Value) : Object :=
  {| data := d; class := c; table := λ _, ∅; ivars := ∅ |}.

Definition alloc (o : Object) (h : heap_) : heap_ * ref :=
  ({| objects := <[fresh h := o]> (objects h); fresh := Pos.succ (fresh h) |},
   fresh h).

Definition alter_object (f : Object → Object) (r : ref) (h : heap_) : heap_ :=
  {| objects := alter f r (objects h); fresh := fresh h |}.

Definition set_data (d : Data) (o : Object) : Object :=
  {| data := d; class := class o; table := table o; ivars := ivars o |}.

Definition set_class (c : Value) (o : Object) : Object :=
  {| data := data o; class := c; table := table o; ivars := ivars o |}.

Definition add_to (t : Table) (name : string) (m : Value) (o : Object)
  : Object :=
  {| data := data o; class := class o;
     table := λ t', if decide (t' = t) then <[name := m]> (table o t')
                    else table o t';
     ivars := ivars o |}.

Definition set_ivar (name : string) (v : Value) (o : Object) : Object :=
  {| data := data o; class := class o; table := table o;
     ivars := <[name := v]> (ivars o) |}.

Definition data_of (h : heap_) (r : ref) : Data :=
  match objects h !! r with
  | Some o => data o
  | None => DObject
  end.

Definition class_of (h : heap_) (r : ref) : Value :=
  objects h !! r ≫= class.

Definition name_of (h : heap_) (v : Value) : string :=
  match v with
  | Some r =>
      match data_of h r with
      | DClass name _ _ | DModule name _ => name
      | _ => "?"
      end
  | None => "?"
  end.

(** The display string of a value. *)
Definition display (h : heap_) (r : ref) : string :=
  match data_of h r with
  | DObject => "#<" ++ name_of h (class_of h r) ++ ">"
  | DClass name _ _ | DModule name _ => name
  | DString s => s
  | DFixnum _ => "Fixnum"
  | DFloat _ => "Float"
  | DSymbol name => name
  | DArray _ => "Array"
  | DHash _ => "Hash"
  | DMethod name _ => name
  | DError kind _ _ => kind
  end.

Definition in_table (t : Table) (h : heap_) (name : string) (v : Value)
  : option Value :=
  r ← v; o ← objects h !! r; table o t !! name.

Fixpoint first_in (t : Table) (h : heap_) (name : string)
    (modules : list Value) : option Value :=
  match modules with
  | [] => None
  | m :: rest =>
      match in_table t h name m with
      | Some x => Some x
      | None => first_in t h name rest
      end
  end.

(** Method resolution: the class, its included modules, then the
    superclass; [depth] bounds the length of the chain. *)
Fixpoint lookup_chain (depth : nat) (t : Table) (h : heap_) (name : string)
    (cls : Value) : option Value :=
  match depth, cls with
  | S d, Some c =>
      match in_table t h name cls with
      | Some m => Some m
      | None =>
          match data_of h c with
          | DClass _ superclass includes =>
              match first_in t h name includes with
              | Some m => Some m
              | None => lookup_chain d t h name superclass
              end
          | DModule _ includes => first_in t h name includes
          | _ => None
          end
      end
  | _, _ => None
  end.

Definition no_method (name : string) (r : ref) (h : heap_) : heap_ * result :=
  let message := "undefined method '" ++ name ++ "' for " ++ display h r in
  let '(h', e) := alloc (object (DError "NoMethodError" message EmptyString) None) h in
  (h', (None, Some (RubyError e))).

Definition find_method (t : Table) (r : ref) (name : string) (h : heap_)
  : heap_ * result :=
  match in_table Own h name (Some r) with
  | Some m => (h, (m, None))
  | None =>
      match lookup_chain 64 t h name (class_of h r) with
      | Some m => (h, (m, None))
      | None => no_method name r h
      end
  end.

Definition new_instance (cls : ref) (p : ClassProvider) (h : heap_)
  : heap_ * result :=
  let d := match data_of h cls with
           | DClass "Array" _ _ => DArray []
           | DClass "Hash" _ _ => DHash []
           | _ => DObject
           end in
  let '(h', r) := alloc (object d (Some cls)) h in
  (h', (Some r, None)).

Definition append (v : Value) (o : Object) : Object :=
  match data o with
  | DArray members => set_data (DArray (members ++ [v])) o
  | _ => o
  end.

Definition add_pair (k v : Value) (o : Object) : Object :=
  match data o with
  | DHash pairs => set_data (DHash (pairs ++ [(k, v)])) o
  | _ => o
  end.

Definition include (m : Value) (o : Object) : Object :=
  match data o with
  | DClass name superclass includes =>
      set_data (DClass name superclass (m :: includes)) o
  | DModule name includes => set_data (DModule name (m :: includes)) o
  | _ => o
  end.

Definition render (f : Frame) : string :=
  frame_name f ++ " (" ++ frame_file f ++ ")".

(** [AddMethod] and its kin file the method under its own name. *)
Definition add_method (t : Table) (r : ref) (m : Value) (h : heap_) : heap_ :=
  match m with
  | Some mr => alter_object (add_to t (display h mr) m) r h
  | None => h
  end.

Global Instance builtins : Builtins := {|
  Heap := heap_;
  NewString s p := alloc (object (DString s) (p "String"));
  NewFixnum z p := alloc (object (DFixnum z) (p "Fixnum"));
  NewFloat f p := alloc (object (DFloat f) (p "Float"));
  NewSymbol name p := alloc (object (DSymbol name) (p "Symbol"));
  NewModule name p := alloc (object (DModule name []) (p "Module"));
  NewUserDefinedClass name p :=
    alloc (object (DClass name (p "Object") []) (p "Class"));
  NewNativeMethod name p fn :=
    alloc (object (DMethod name (NativeMethod fn)) None);
  NewRubyMethod name args body p :=
    alloc (object (DMethod name (RubyMethod args body)) None);
  NewNameError name str cls stk :=
    alloc (object
             (DError "NameError"
                ("undefined local variable or method '" ++ name ++ "' for "
                 ++ str ++ ":" ++ cls) stk) None);
  NewNoMethodError name str cls stk :=
    alloc (object
             (DError "NoMethodError"
                ("undefined method '" ++ name ++ "' for " ++ str ++ ":" ++ cls)
                stk) None);
  NewLoadError message stk := alloc (object (DError "LoadError" message stk) None);
  Value_String := display;
  Value_Class := class_of;
  Value_Method := find_method Instance;
  Value_PrivateMethod := find_method Private;
  Value_AddMethod := add_method Own;
  Value_SetInstanceVariable r name v := alter_object (set_ivar name v) r;
  Class_New := new_instance;
  Module_InstanceMethod r name h :=
    match lookup_chain 64 Instance h name (Some r) with
    | Some m => (h, (m, None))
    | None => no_method name r h
    end;
  Module_AddInstanceMethod := add_method Instance;
  Module_AddPrivateMethod := add_method Private;
  Array_Append r v := alter_object (append v) r;
  Array_Members h r := match data_of h r with DArray ms => ms | _ => [] end;
  Hash_Add r k v := alter_object (add_pair k v) r;
  Method_Name := display;
  Method_Impl h r := match data_of h r with DMethod _ i => Some i | _ => None end;
  builtin_exec id p self args h :=
    match id, self with
    | "new", Some cls => let '(h', r) := new_instance cls p h in (h', Return r)
    | _, _ => (h, Panic "unknown builtin")
    end;
  is_RubyModule h r := match data_of h r with DModule _ _ => true | _ => false end;
  is_Class h r := match data_of h r with DClass _ _ _ => true | _ => false end;
  is_Module h r :=
    match data_of h r with DClass _ _ _ | DModule _ _ => true | _ => false end;
  is_Array h r := match data_of h r with DArray _ => true | _ => false end;
  is_Hash h r := match data_of h r with DHash _ => true | _ => false end;
  is_StringValue h r := match data_of h r with DString _ => true | _ => false end;
  CallStack_String st := String.concat "; " (map render st)
|}.

(** A host with the given parse results and files. *)
Definition host (sources : list (string * list Node))
    (files : list (string * string)) : Host := {|
  RubyParse input := snd <$> List.find (λ p, String.eqb p.1 input) sources;
  filepath_Join dir file := dir ++ "/" ++ file;
  os_Open path :=
    match List.find (λ p, String.eqb p.1 path) files with
    | Some _ => true
    | None => false
    end;
  ioutil_ReadAll path := snd <$> List.find (λ p, String.eqb p.1 path) files
|}.

Section Bootstrap.
Context `{Host}.

Definition builtin_class (name : string) (superclass : Value) : M ref :=
  let* s := get in
  let* c := onHeap (alloc (object (DClass name superclass [])
                             (index (CurrentClasses s) "Class"))) in
  modify (set_CurrentClasses <[name := Some c]>) ;;
  ret c.

Definition builtin_module (name : string) : M ref :=
  let* m := withProvider (NewModule name) in
  modify (set_CurrentModules <[name := Some m]>) ;;
  ret m.

Definition SetSuperClass (superclass : Value) (o : Object) : Object :=
  match data o with
  | DClass name _ includes => set_data (DClass name superclass includes) o
  | _ => o
  end.

(** vm.go:111-153, on the reference implementation. *)
Definition registerBuiltinClassesAndModules : M unit :=
  let* basicObjectClass := builtin_class "BasicObject" None in
  let* objectClass := builtin_class "Object" None in
  let* classClass := builtin_class "Class" None in
  let* moduleClass := builtin_class "Module" None in
  builtin_module "Comparable" ;;
  let* kernel := builtin_module "Kernel" in
  builtin_module "Process" ;;
  update (alter_object (include (Some kernel)) objectClass) ;;
  update (alter_object (include (Some kernel)) moduleClass) ;;
  update (alter_object (SetSuperClass (Some moduleClass)) classClass) ;;
  update (alter_object (SetSuperClass (Some basicObjectClass)) objectClass) ;;
  update (alter_object (SetSuperClass None) basicObjectClass) ;;
  update (alter_object (SetSuperClass (Some objectClass)) moduleClass) ;;
  update (alter_object (set_class (Some classClass)) basicObjectClass) ;;
  update (alter_object (set_class (Some classClass)) objectClass) ;;
  update (alter_object (set_class (Some classClass)) classClass) ;;
  update (alter_object (set_class (Some classClass)) moduleClass) ;;
  let* new := withProvider (λ p, NewNativeMethod "new" p (builtin_fn "new")) in
  update (Module_AddInstanceMethod classClass (Some new)) ;;
  builtin_class "IO" (Some objectClass) ;;
  builtin_class "Array" (Some objectClass) ;;
  builtin_class "Hash" (Some objectClass) ;;
  builtin_class "True" (Some objectClass) ;;
  builtin_class "File" (Some objectClass) ;;
  builtin_class "False" (Some objectClass) ;;
  builtin_class "Nil" (Some objectClass) ;;
  builtin_class "String" (Some objectClass) ;;
  builtin_class "Fixnum" (Some objectClass) ;;
  builtin_class "Float" (Some objectClass) ;;
  builtin_class "Symbol" (Some objectClass) ;;
  ret tt.

(** The [vm] of vm.go:48-56, before anything is registered. *)
Definition blank (name : string) : vm :=
  {| currentFilename := name; stack := []; ObjectSpace := ∅;
     CurrentGlobals := ∅; CurrentSymbols := ∅; CurrentClasses := ∅;
     CurrentModules := ∅; localVariableStack := []; heap := empty_heap |}.

(** vm.go:47-109 *)
Definition NewVM_body (rubyHome : string) : M unit :=
  registerBuiltinClassesAndModules ;;
  let* s := get in
  let* arrayClass := deref (index (CurrentClasses s) "Array") in
  let* lp := withProvider (Class_New arrayClass) in
  let loadPath := lp.1 in
  let* array := assert_type is_Array loadPath in
  let* dir := withProvider (NewString (filepath_Join rubyHome "lib")) in
  update (Array_Append array (Some dir)) ;;
  modify (set_CurrentGlobals <["LOAD_PATH" := loadPath]>) ;;
  modify (set_CurrentGlobals <[":" := loadPath]>) ;;
  let* argv := withProvider (Class_New arrayClass) in
  modify (set_ObjectSpace <["ARGV" := argv.1]>) ;;
  let* s := get in
  let* objectClass := deref (index (CurrentClasses s) "Object") in
  let* mn := withProvider (Class_New objectClass) in
  let* main := deref mn.1 in
  let* to_s := withProvider (λ p, NewNativeMethod "to_s" p main_to_s) in
  update (Value_AddMethod main (Some to_s)) ;;
  let* req := withProvider
                (λ p, NewNativeMethod "require" p (main_require loadPath)) in
  update (Value_AddMethod main (Some req)) ;;
  modify (set_ObjectSpace <["main" := Some main]>).

Definition NewVM (rubyHome name : string) : vm :=
  (NewVM_body rubyHome (blank name)).1.

End Bootstrap.

End RefImpl.

(** ** Specifications *)

(** A computation keeps a relation between the state it starts from and
    the state it leaves, whatever its outcome. *)
Definition keeps {S A} (R : S → S → Prop) (m : SO S A) : Prop :=
  ∀ s, R s (m s).1.

(** The value and error a computation returned, if it returned. *)
Definition returned {S} (r : S * outcome result) : option result :=
  match r.2 with
  | Return x => Some x
  | _ => None
  end.

Section Specification.
Context `{Builtins} `{Host}.

(** Every symbol interned in [s] is the same value in [s']. *)
Definition symbols_kept (s s' : vm) : Prop :=
  ∀ name v, CurrentSymbols s !! name = Some v →
            CurrentSymbols s' !! name = Some v.

(** What a call leaves untouched: both stacks, the current file name and
    the symbols interned so far. *)
Definition undisturbed (s s' : vm) : Prop :=
  stack s' = stack s
  ∧ localVariableStack s' = localVariableStack s
  ∧ currentFilename s' = currentFilename s
  ∧ symbols_kept s s'.

(** The same, inside a method body: the topmost scope may have been
    written. *)
Definition undisturbed_below (s s' : vm) : Prop :=
  stack s' = stack s
  ∧ shift (localVariableStack s') = shift (localVariableStack s)
  ∧ currentFilename s' = currentFilename s
  ∧ symbols_kept s s'.

(** The same, inside [executeWithContext]: the frames pushed so far are
    those whose [Shift] is deferred. *)
Definition pending (sl sl' : vm * locals) : Prop :=
  ∃ pushed : CallStack,
    stack sl'.1 = (pushed ++ stack sl.1)%list
    ∧ deferred sl'.2 = length pushed + deferred sl.2
    ∧ localVariableStack sl'.1 = localVariableStack sl.1
    ∧ currentFilename sl'.1 = currentFilename sl.1
    ∧ symbols_kept sl.1 sl'.1.

(** Bare names resolve in this order: current local scope, Object
    Space, Class registry, Module registry. *)
Definition resolve_bare_name (s : vm) (name : string) : option Value :=
  match retrieve name (localVariableStack s) with
  | Some v => Some v
  | None =>
      match ObjectSpace s !! name with
      | Some v => Some v
      | None =>
          match CurrentClasses s !! name with
          | Some v => Some v
          | None => CurrentModules s !! name
          end
      end
  end.

(** The name-undefined error for [name] read against the value [c] of
    class [cls] in state [s]: it carries the display strings of both and
    the rendering of the call stack. *)
Definition name_error (name : string) (c cls : ref) (s : vm) : Heap * ref :=
  NewNameError name (Value_String (heap s) c) (Value_String (heap s) cls)
    (CallStack_String (stack s)) (heap s).

Definition is_Rescue (n : Node) : bool :=
  match n with
  | Rescue _ _ => true
  | _ => false
  end.

(** The rescue clauses in source order, one entry per declared
    exception-class name, each with the recovery body of its clause. *)
Definition handlers (rescues : list Node) : list (string * list Node) :=
  flat_map (λ n, match n with
                 | Rescue Classes Body => map (λ c, (c, Body)) Classes
                 | _ => []
                 end) rescues.

(** The state machine of begin/rescue, in the words of the spec: go
    through the handlers in order; a handler whose name textually equals
    the display string of the [original] error has its recovery body
    evaluated; if the body succeeds the error is handled and the search
    stops, and if it raises the search goes on with the remaining
    handlers, still matching against [original]; [err] is the error the
    construct would currently leave. *)
Fixpoint rescue_search (exec : Value → list Node → M result)
    (context : Value) (original : ref) (hs : list (string * list Node))
    (err : error) : M error :=
  match hs with
  | [] => ret err
  | (name, Body) :: rest =>
      let* s := get in
      if decide (name = Value_String (heap s) original) then
        let* r := exec context Body in
        match r.2 with
        | None => ret None
        | Some _ => rescue_search exec context original rest r.2
        end
      else rescue_search exec context original rest err
  end.

(** What leaves a [Begin] statement evaluated on its own: no value, and
    the error of the search. *)
Definition leave_Begin (r : vm * outcome error) : vm * outcome result :=
  (r.1, match r.2 with
        | Return err => Return (None, err)
        | Panic msg => Panic msg
        | OutOfFuel => OutOfFuel
        end).

(** How one activation of [executeWithContext] ends once its loop is
    left: the deferred [Shift]s run, and the function answers what the
    loop returned with or, at the end of the statements, its named
    results. *)
Definition conclude (r : (vm * locals) * outcome (ctl unit))
  : vm * outcome result :=
  (set_stack (Nat.iter (deferred r.1.2) Shift) r.1.1,
   match r.2 with
   | Return (Next _) => Return (returnValue r.1.2, returnErr r.1.2)
   | Return (ReturnWith x) => Return x
   | Panic msg => Panic msg
   | OutOfFuel => OutOfFuel
   end).

(** How [executeWithContext] is left, given what its loop answered:
    the deferred [Shift]s run. *)
Definition leave (r : (vm * locals) * outcome result) : vm * outcome result :=
  (set_stack (Nat.iter (deferred r.1.2) Shift) r.1.1, r.2).

(** The scope a method body starts in: its arguments, bound in order. *)
Definition bound_scope (Args : list (string * Value)) : gmap string Value :=
  fold_left (λ sc arg, <[arg.1 := arg.2]> sc) Args ∅.

(** No name bound in a registry of [s] is unbound in [s']. *)
Definition bindings_kept (s s' : vm) : Prop :=
  dom (ObjectSpace s) ⊆ dom (ObjectSpace s')
  ∧ dom (CurrentGlobals s) ⊆ dom (CurrentGlobals s')
  ∧ dom (CurrentSymbols s) ⊆ dom (CurrentSymbols s')
  ∧ dom (CurrentClasses s) ⊆ dom (CurrentClasses s')
  ∧ dom (CurrentModules s) ⊆ dom (CurrentModules s').

(** A relation on the state of [executeWithContext]'s body that only
    looks at the [vm]. *)
Definition on_vm (R : vm → vm → Prop) (sl sl' : vm * locals) : Prop :=
  R sl.1 sl'.1.

(** What [require] answers once it has run the file it found, from the
    outcome [r] of that run: the file name is put back to [original];
    an error of the run is the error of [require], and after a run
    without error the answer is a new instance of the class registered
    as [True]. *)
Definition loaded (original : string) (r : vm * outcome result)
  : vm * outcome result :=
  defer_ (set_currentFilename (λ _, original))
    (λ s', match r.2 with
           | Return x =>
               match x.2 with
               | Some _ => (s', Return (None, x.2))
               | None =>
                   (let* cls := deref (index (CurrentClasses s') "True") in
                    withProvider (Class_New cls)) s'
               end
           | Panic msg => (s', Panic msg)
           | OutOfFuel => (s', OutOfFuel)
           end) r.1.

(** A load-path entry under which [require] finds nothing to load: a
    string naming a directory where the file cannot be opened, or can be
    opened but not read. *)
Definition passed_over (s : vm) (fileName : string) (pathStr : Value) : Prop :=
  ∃ dir, pathStr = Some dir ∧ is_StringValue (heap s) dir = true
         ∧ (os_Open (filepath_Join (Value_String (heap s) dir)
                       (fileName ++ ".rb")) = false
            ∨ ioutil_ReadAll (filepath_Join (Value_String (heap s) dir)
                                (fileName ++ ".rb")) = None).

(** A module declaration in the order the spec gives: create the
    module, evaluate the body with it as context, and only then register
    it. *)
Definition declare_then_register (exec : Value → list Node → M result)
    (Name : string) (Body : list Node) : M result :=
  let* theModule := withProvider (NewModule Name) in
  let* r := exec (Some theModule) Body in
  modify (set_CurrentModules <[Name := Some theModule]>) ;;
  ret (Some theModule, r.2).

(** A module declaration in the order of vm.go:296-306: create the
    module, register it, then evaluate the body with it as context. *)
Definition register_then_declare (create : ClassProvider → Heap → Heap * ref)
    (register : ref → vm → vm) (answer : ref → Value)
    (exec : Value → list Node → M result) (Body : list Node) : M result :=
  let* decl := withProvider create in
  modify (register decl) ;;
  let* r := exec (Some decl) Body in
  ret (answer decl, r.2).

End Specification.

(** ** Programs to run on the reference implementation *)

Module Examples.
Import RefImpl.

(** [nil.foo]: a call on a target that evaluates to [nil]. *)
Definition call_on_nil : Node :=
  CallExpression (Some (GlobalVariable "unset")) "foo" [].

(** A begin block whose first recovery body fails with another kind of
    error than the protected body. *)
Definition rescued : Node :=
  Begin [BareReference "qux"]
    [Rescue ["LoadError"; "NameError"] [call_on_nil];
     Rescue ["NoMethodError"]
       [Assignment (GlobalVariable "by_new_error") (ConstantInt 1)];
     Rescue ["NameError"]
       [Assignment (GlobalVariable "by_original_error") (ConstantInt 1)]].

Definition sources : list (string * list Node) :=
  [ ("1", [ConstantInt 1]);
    ("if nil then 1 else 2 end",
      [IfBlock (BareReference "nil") [ConstantInt 1] [ConstantInt 2]]);
    ("if foo then 1 else 2 end",
      [IfBlock (BareReference "foo") [ConstantInt 1] [ConstantInt 2]]);
    ("to_s; qux", [CallExpression None "to_s" []; BareReference "qux"]);
    ("qux", [BareReference "qux"]);
    ("1; x = 2", [ConstantInt 1; Assignment (BareReference "x") (ConstantInt 2)]);
    ("x = 2", [Assignment (BareReference "x") (ConstantInt 2)]);
    ("module Foo; Foo; end", [ModuleDecl "Foo" [BareReference "Foo"]]);
    ("require 'missing_file'",
      [CallExpression None "require" [SimpleString "missing_file"]]);
    ("require 'rubygems'",
      [CallExpression None "require" [SimpleString "rubygems"]]);
    ("require 'lib1'", [CallExpression None "require" [SimpleString "lib1"]]);
    ("def f; qux; end; f",
      [FuncDecl None "f" [] [BareReference "qux"]; CallExpression None "f" []]);
    ("begin; qux; rescue LoadError, NameError; nil.foo; rescue NoMethodError; $by_new_error = 1; rescue NameError; $by_original_error = 1; end",
      [rescued]) ].

Definition files : list (string * string) :=
  [ ("/home/user/.grubby/lib/lib1.rb", "def f; qux; end; f") ].

Definition machine : Host := host sources files.

#[local] Existing Instance machine.

Definition boot : vm := NewVM "/home/user/.grubby" "STDIN".

Definition main : Value := index (ObjectSpace boot) "main".

(** The payload of a value, for reading results. *)
Definition inspect (s : vm) (v : Value) : option Data :=
  r ← v; data <$> objects (heap s) !! r.

(** The payload of the value a computation returned. *)
Definition value (r : vm * outcome result) : option Data :=
  x ← returned r; inspect r.1 x.1.

(** The payload of the error a computation returned. *)
Definition raised (r : vm * outcome result) : option Data :=
  x ← returned r;
  match x.2 with
  | Some (RubyError e) => inspect r.1 (Some e)
  | _ => None
  end.

(** The backtrace the returned error carries. *)
Definition backtrace (r : vm * outcome result) : option string :=
  match raised r with
  | Some (DError _ _ trace) => Some trace
  | _ => None
  end.

(** The states the begin block [rescued] goes through: after its
    protected body, and after its first recovery body. *)
Definition after_body : vm :=
  (executeWithContext 5 main [BareReference "qux"] boot).1.

Definition after_recovery : vm :=
  (executeWithContext 5 main [call_on_nil] after_body).1.

(** The state after the right-hand side of [x = 2]. *)
Definition after_two : vm :=
  (executeWithContext 2 main [ConstantInt 2] boot).1.

(** [main] is asked to require the file a new string names. *)
Definition with_string (name : string) : vm :=
  (withProvider (NewString name) boot).1.

Definition the_string : ref := fresh (heap boot).

Definition require_method : Value :=
  (Value_Method (default 1%positive main) "require" (heap boot)).2.1.

Definition load_path : Value := index (CurrentGlobals boot) "LOAD_PATH".

End Examples.

(** ** More states and programs, used to exercise the evaluator *)

Module Scenarios.
Import RefImpl Examples.

#[local] Existing Instance machine.

(** The name a class or module of the reference implementation gives
    itself. *)
Definition Class_Name (h : Heap) (r : ref) : string := name_of h (Some r).

(** The state in the body of a method that was called with [main] as its
    argument [x]. *)
Definition in_method : vm :=
  set_localVariableStack (λ l, bound_scope [("x", main)] :: l) boot.

Definition in_method_after_two : vm :=
  (executeWithContext 2 main [ConstantInt 2] in_method).1.

Definition after_one : vm :=
  (executeWithContext 2 main [ConstantInt 1] boot).1.

(** The state after reading a global variable that was never set. *)
Definition after_unset : vm :=
  (executeWithContext 1 main [GlobalVariable "unset"] boot).1.

(** The state after a recovery body that succeeds. *)
Definition recovered : vm :=
  (executeWithContext 5 main [ConstantInt 1] after_body).1.

(** A begin block whose second handler matches and succeeds; the third
    handler matches too, and would fail. *)
Definition handled : Node :=
  Begin [BareReference "qux"]
    [Rescue ["LoadError"; "NameError"] [ConstantInt 1];
     Rescue ["NameError"] [call_on_nil]].

(** The state after [def f; qux; end] at the top level. *)
Definition with_f : vm :=
  (executeWithContext 1 main [FuncDecl None "f" [] [BareReference "qux"]]
     boot).1.

(** The state after [main] is read there. *)
Definition with_main : vm :=
  (executeWithContext 2 main [BareReference "main"] with_f).1.





(** A load path of two directories, the second of which holds the
    file. *)
Definition second_machine : Host :=
  host sources [("/opt/ruby/lib1.rb", "1")].

Definition two_directories : vm :=
  ((let* dir := withProvider (NewString "/opt/ruby") in
    update (Array_Append 20%positive (Some dir)))
     (with_string "lib1")).1.

End Scenarios.

(** * Properties *)

(** ** Reasoning about what a computation keeps *)

Section Keeps.
Context {S : Type} (R : S → S → Prop) `{!PreOrder R}.

Lemma keeps_ret {A} (a : A) : keeps R (ret a).
Proof. intros s. reflexivity. Qed.

Lemma keeps_panic {A} msg : keeps R (panic (A := A) msg).
Proof. intros s. reflexivity. Qed.

Lemma keeps_out_of_fuel {A} : keeps R (out_of_fuel (A := A)).
Proof. intros s. reflexivity. Qed.

Lemma keeps_get : keeps R get.
Proof. intros s. reflexivity. Qed.

Lemma keeps_modify (f : S → S) : (∀ s, R s (f s)) → keeps R (modify f).
Proof. intros Hf s. apply Hf. Qed.

Lemma keeps_bind {A B} (m : SO S A) (k : A → SO S B) :
  keeps R m → (∀ a, keeps R (k a)) → keeps R (bind m k).
Proof.
  intros Hm Hk s. unfold bind.
  specialize (Hm s). destruct (m s) as [s' [a | msg | ]]; simpl in *; auto.
  transitivity s'; [assumption | apply Hk].
Qed.

Lemma keeps_bindc {A B} (m : SO S (ctl A)) (k : A → SO S (ctl B)) :
  keeps R m → (∀ a, keeps R (k a)) → keeps R (bindc m k).
Proof.
  intros Hm Hk. apply keeps_bind; [assumption | ].
  intros [a | r]; [apply Hk | apply keeps_ret].
Qed.

Lemma keeps_range {A X} (xs : list X) (body : A → X → SO S (ctl A)) acc :
  (∀ a x, keeps R (body a x)) → keeps R (range xs body acc).
Proof.
  intros Hbody. revert acc.
  induction xs as [ | x xs IH]; intros acc; simpl.
  - apply keeps_ret.
  - apply keeps_bindc; [apply Hbody | apply IH].
Qed.

Lemma keeps_deref (v : Value) : keeps R (deref v).
Proof. destruct v; [apply keeps_ret | apply keeps_panic]. Qed.

End Keeps.

Lemma keeps_weaken {S A} (R R' : S → S → Prop) (m : SO S A) :
  (∀ s s', R s s' → R' s s') → keeps R m → keeps R' m.
Proof. intros HR Hm s. apply HR, Hm. Qed.

Lemma iter_Shift (pushed st : CallStack) :
  Nat.iter (length pushed) Shift (pushed ++ st)%list = st.
Proof.
  induction pushed as [ | f pushed IH]; [reflexivity | ].
  cbn [length app]. rewrite Nat.iter_succ_r. exact IH.
Qed.

(** ** What the evaluator leaves untouched *)

Ltac untouched :=
  repeat split; first [ reflexivity | intros ? ? Hkept; exact Hkept ].

Section Invariants.
Context `{Builtins} `{Host}.

Lemma symbols_kept_refl s : symbols_kept s s.
Proof. intros name v Hv. exact Hv. Qed.

Lemma symbols_kept_trans s1 s2 s3 :
  symbols_kept s1 s2 → symbols_kept s2 s3 → symbols_kept s1 s3.
Proof. intros H12 H23 name v Hv. apply H23, H12, Hv. Qed.

#[local] Instance undisturbed_preorder : PreOrder undisturbed.
Proof.
  split.
  - intros s. repeat split; auto using symbols_kept_refl.
  - intros s1 s2 s3 (Ha & Hb & Hc & Hd) (Ha' & Hb' & Hc' & Hd').
    repeat split; try congruence. eauto using symbols_kept_trans.
Qed.

#[local] Instance undisturbed_below_preorder : PreOrder undisturbed_below.
Proof.
  split.
  - intros s. repeat split; auto using symbols_kept_refl.
  - intros s1 s2 s3 (Ha & Hb & Hc & Hd) (Ha' & Hb' & Hc' & Hd').
    repeat split; try congruence. eauto using symbols_kept_trans.
Qed.

#[local] Instance pending_preorder : PreOrder pending.
Proof.
  split.
  - intros sl. exists []. repeat split; auto using symbols_kept_refl.
  - intros sl1 sl2 sl3 (p & Ha & Hb & Hc & Hd & He)
      (p' & Ha' & Hb' & Hc' & Hd' & He').
    exists (p' ++ p)%list. repeat split; try congruence.
    + rewrite Ha', Ha. apply app_assoc.
    + rewrite Hb', Hb, length_app. lia.
    + eauto using symbols_kept_trans.
Qed.

Lemma undisturbed_weaken s s' : undisturbed s s' → undisturbed_below s s'.
Proof.
  intros (Ha & Hb & Hc & Hd). repeat split; auto. congruence.
Qed.

Lemma undisturbed_pending s s' l :
  undisturbed s s' → pending (s, l) (s', l).
Proof.
  intros (Ha & Hb & Hc & Hd). exists []. repeat split; auto.
Qed.

(** The builtins only reach the heap. *)
Lemma set_heap_undisturbed f s : undisturbed s (set_heap f s).
Proof. untouched. Qed.

Lemma set_ObjectSpace_undisturbed f s : undisturbed s (set_ObjectSpace f s).
Proof. untouched. Qed.

Lemma set_CurrentGlobals_undisturbed f s :
  undisturbed s (set_CurrentGlobals f s).
Proof. untouched. Qed.

Lemma set_CurrentClasses_undisturbed f s :
  undisturbed s (set_CurrentClasses f s).
Proof. untouched. Qed.

Lemma set_CurrentModules_undisturbed f s :
  undisturbed s (set_CurrentModules f s).
Proof. untouched. Qed.

Lemma keeps_onHeap {A} (f : Heap → Heap * A) : keeps undisturbed (onHeap f).
Proof.
  intros s. unfold onHeap. destruct (f (heap s)) as [h a].
  apply set_heap_undisturbed.
Qed.

Lemma keeps_withProvider {A} (f : ClassProvider → Heap → Heap * A) :
  keeps undisturbed (withProvider f).
Proof. intros s. unfold withProvider. apply keeps_onHeap. Qed.

Lemma keeps_update f : keeps undisturbed (update f).
Proof. intros s. apply set_heap_undisturbed. Qed.

Lemma keeps_assert_type is_T v : keeps undisturbed (assert_type is_T v).
Proof.
  intros s. unfold assert_type, bind, get. destruct v as [r | ]; simpl.
  - destruct (is_T (heap s) r); reflexivity.
  - reflexivity.
Qed.

Lemma keeps_inVM {A} (m : M A) : keeps undisturbed m → keeps pending (inVM m).
Proof.
  intros Hm [s l]. unfold inVM, zoom. simpl.
  specialize (Hm s). destruct (m s) as [s' o]. simpl in *.
  apply undisturbed_pending, Hm.
Qed.

Lemma keeps_getVM : keeps pending getVM.
Proof. intros sl. reflexivity. Qed.

Lemma keeps_getLocals : keeps pending getLocals.
Proof. intros sl. reflexivity. Qed.

Lemma keeps_setReturnValue v : keeps pending (setReturnValue v).
Proof.
  intros [s l]. exists []. untouched.
Qed.

Lemma keeps_setReturnErr e : keeps pending (setReturnErr e).
Proof.
  intros [s l]. exists []. untouched.
Qed.

Lemma keeps_return_locals {A} : keeps pending (return_locals (A := A)).
Proof. intros sl. reflexivity. Qed.

Lemma keeps_next : keeps pending next.
Proof. intros sl. reflexivity. Qed.

(** Pushing a frame and deferring its [Shift]. *)
Lemma keeps_push {A} name file (k : L A) :
  keeps pending k →
  keeps pending
    (inVM (modify (set_stack (Unshift name file))) ;; defer_Shift ;; k).
Proof.
  intros Hk [s l]. unfold bind at 1 2. simpl.
  match goal with |- pending _ (k ?sl).1 => transitivity sl; [ | apply Hk] end.
  exists [ {| frame_name := name; frame_file := file |} ].
  untouched.
Qed.

(** One step of a proof that a piece of the evaluator keeps a relation:
    the monad's operations, the builtins, and case analysis on what a
    [match] or an [if] inspects. *)
Ltac keeps_step :=
  first
    [ assumption
    | match goal with Hk : _ |- keeps _ _ => apply Hk end
    | apply keeps_ret; exact _ | apply keeps_panic; exact _
    | apply keeps_get; exact _ | apply keeps_deref; exact _
    | apply keeps_next | apply keeps_return_locals
    | apply keeps_getVM | apply keeps_getLocals
    | apply keeps_setReturnValue | apply keeps_setReturnErr
    | apply keeps_onHeap | apply keeps_withProvider | apply keeps_update
    | apply keeps_assert_type
    | apply keeps_modify; intros ?;
      first [ apply set_ObjectSpace_undisturbed
            | apply set_CurrentGlobals_undisturbed
            | apply set_CurrentClasses_undisturbed
            | apply set_CurrentModules_undisturbed ]
    | apply keeps_inVM
    | apply keeps_bindc; [ exact _ | | intros ? ]
    | apply keeps_bind; [ exact _ | | intros ? ]
    | apply keeps_range; [ exact _ | intros ? ? ]
    | match goal with
      | |- keeps _ (match ?x with _ => _ end) => destruct x
      end ].

Ltac keeps_all := repeat keeps_step.

Section Cases.
Variable exec : Value → list Node → M result.
Variable Execute : Value → Value → list Value → M result.
Hypothesis exec_keeps : ∀ c st, keeps undisturbed (exec c st).
Hypothesis Execute_keeps : ∀ m self args, keeps undisturbed (Execute m self args).
Variable context : Value.

Lemma keeps_exec : ∀ c st, keeps pending (inVM (exec c st)).
Proof. intros. apply keeps_inVM, exec_keeps. Qed.

Lemma keeps_exec_IfBlock Condition Body Else :
  keeps pending (exec_IfBlock exec context Condition Body Else).
Proof. unfold exec_IfBlock. keeps_all. Qed.

Lemma keeps_exec_Alias From To :
  keeps pending (exec_Alias context From To).
Proof. unfold exec_Alias. keeps_all. Qed.

Lemma keeps_exec_ModuleDecl Name Body :
  keeps pending (exec_ModuleDecl exec Name Body).
Proof. unfold exec_ModuleDecl. keeps_all. Qed.

Lemma keeps_exec_ClassDecl Name Body :
  keeps pending (exec_ClassDecl exec Name Body).
Proof. unfold exec_ClassDecl. keeps_all. Qed.

Lemma keeps_exec_FuncDecl Target Name Args Body :
  keeps pending (exec_FuncDecl context Target Name Args Body).
Proof. unfold exec_FuncDecl. keeps_all. Qed.

Lemma keeps_exec_String Value : keeps pending (exec_String Value).
Proof. unfold exec_String. keeps_all. Qed.

Lemma keeps_exec_Boolean Value : keeps pending (exec_Boolean Value).
Proof. unfold exec_Boolean. keeps_all. Qed.

Lemma keeps_exec_GlobalVariable Name : keeps pending (exec_GlobalVariable Name).
Proof. unfold exec_GlobalVariable. keeps_all. Qed.

Lemma keeps_exec_ConstantInt Value : keeps pending (exec_ConstantInt Value).
Proof. unfold exec_ConstantInt. keeps_all. Qed.

Lemma keeps_exec_ConstantFloat Value : keeps pending (exec_ConstantFloat Value).
Proof. unfold exec_ConstantFloat. keeps_all. Qed.

Lemma keeps_exec_Symbol name : keeps pending (exec_Symbol name).
Proof.
  intros [s l]. unfold exec_Symbol, getVM, bind, get, ret. simpl.
  destruct (CurrentSymbols s !! name) as [maybe | ] eqn:Hname; simpl.
  - exists []. untouched.
  - unfold inVM, zoom, withProvider, onHeap. simpl.
    destruct (NewSymbol name (ClassWithName s) (heap s)) as [h v]. simpl.
    exists []. repeat split; try reflexivity.
    intros name' v' Hv'. simpl in *.
    rewrite lookup_insert_ne; [exact Hv' | ].
    intros ->. rewrite Hname in Hv'. discriminate.
Qed.

Lemma keeps_name_undefined name : keeps pending (name_undefined context name).
Proof. unfold name_undefined. keeps_all. Qed.

Lemma keeps_exec_BareReference name :
  keeps pending (exec_BareReference context name).
Proof.
  pose proof (keeps_name_undefined name).
  unfold exec_BareReference. keeps_all.
Qed.

Lemma keeps_evalArgs Args : keeps undisturbed (evalArgs exec context Args).
Proof. unfold evalArgs. keeps_all. Qed.

Lemma keeps_nil_target Func : keeps pending (nil_target Func).
Proof. unfold nil_target. keeps_all. Qed.

Lemma keeps_resolve target Func usePrivateMethod :
  keeps undisturbed (resolve target Func usePrivateMethod).
Proof. unfold resolve. keeps_all. Qed.

Lemma keeps_exec_CallExpression Target Func Args :
  keeps pending (exec_CallExpression exec Execute context Target Func Args).
Proof.
  pose proof keeps_evalArgs. pose proof keeps_nil_target.
  pose proof keeps_resolve.
  unfold exec_CallExpression.
  repeat first [ apply keeps_push | keeps_step ].
Qed.

Lemma keeps_exec_Assignment LHS RHS :
  keeps pending (exec_Assignment exec context LHS RHS).
Proof. unfold exec_Assignment. keeps_all. Qed.

Lemma keeps_rescueClasses rubyErr Body Classes err :
  keeps undisturbed (rescueClasses exec context rubyErr Body Classes err).
Proof.
  revert err. induction Classes as [ | c Classes IH]; intros err; simpl.
  - keeps_all.
  - keeps_all.
Qed.

Lemma keeps_rescueClauses rubyErr rescues err matchingRescue :
  keeps undisturbed
    (rescueClauses exec context rubyErr rescues err matchingRescue).
Proof.
  pose proof keeps_rescueClasses.
  revert err matchingRescue.
  induction rescues as [ | r rescues IH]; intros err matchingRescue; simpl.
  - keeps_all.
  - keeps_all.
Qed.

Lemma keeps_exec_Begin Body rescues :
  keeps pending (exec_Begin exec context Body rescues).
Proof.
  pose proof keeps_rescueClauses. unfold exec_Begin. keeps_all.
Qed.

Lemma keeps_exec_Array Nodes : keeps pending (exec_Array exec context Nodes).
Proof. unfold exec_Array. keeps_all. Qed.

Lemma keeps_hashPairs hash Pairs :
  keeps undisturbed (hashPairs exec context hash Pairs).
Proof.
  induction Pairs as [ | p Pairs IH]; simpl; keeps_all.
Qed.

Lemma keeps_exec_Hash Pairs : keeps pending (exec_Hash exec context Pairs).
Proof. pose proof keeps_hashPairs. unfold exec_Hash. keeps_all. Qed.

Lemma keeps_executeStatement statement :
  keeps pending (executeStatement exec Execute context statement).
Proof.
  destruct statement; simpl;
    first [ apply keeps_exec_IfBlock | apply keeps_exec_Alias
          | apply keeps_exec_ModuleDecl | apply keeps_exec_ClassDecl
          | apply keeps_exec_FuncDecl | apply keeps_exec_String
          | apply keeps_exec_Boolean | apply keeps_exec_GlobalVariable
          | apply keeps_exec_ConstantInt | apply keeps_exec_ConstantFloat
          | apply keeps_exec_Symbol | apply keeps_exec_BareReference
          | apply keeps_exec_CallExpression | apply keeps_exec_Assignment
          | apply keeps_exec_Begin | apply keeps_exec_Array
          | apply keeps_exec_Hash | idtac ].
  - pose proof keeps_exec_String. keeps_all.
  - keeps_all.
  - keeps_all.
  - keeps_all.
  - keeps_all.
Qed.

Lemma keeps_statements_loop statements :
  keeps pending (statements_loop exec Execute context statements).
Proof.
  pose proof keeps_executeStatement. unfold statements_loop. keeps_all.
Qed.

(** An activation of [executeWithContext] pops what it pushed. *)
Lemma keeps_executeWithContext_body statements :
  keeps undisturbed (executeWithContext_body exec Execute context statements).
Proof.
  intros s. unfold executeWithContext_body.
  pose proof (keeps_statements_loop statements (s, entry)) as Hloop.
  destruct (statements_loop exec Execute context statements (s, entry))
    as [[s' l] o].
  destruct Hloop as (pushed & Hstack & Hdeferred & Hlvs & Hfile & Hsym).
  simpl in *. repeat split; simpl; try assumption.
  rewrite Hdeferred, Hstack, Nat.add_0_r. apply iter_Shift.
Qed.

End Cases.

Section Methods.
Variable exec : Value → list Node → M result.
Variable Execute : Value → Value → list Value → M result.
Hypothesis exec_keeps : ∀ c st, keeps undisturbed (exec c st).
Hypothesis Execute_keeps : ∀ m self args, keeps undisturbed (Execute m self args).

(** [Run] pops the frame and the scope it pushed. *)
Lemma keeps_Run_body input : keeps undisturbed (Run_body exec input).
Proof.
  unfold Run_body. destruct (RubyParse input) as [Statements | ]; [ | keeps_all].
  intros s. unfold bind, get, modify, defer_. simpl.
  match goal with
  | |- context [exec ?c ?st ?s1] =>
      pose proof (exec_keeps c st s1) as Hk; destruct (exec c st s1) as [s' o]
  end.
  destruct Hk as (Hstack & Hlvs & Hfile & Hsym). simpl in *.
  repeat split; simpl.
  - rewrite Hstack. reflexivity.
  - rewrite Hlvs. reflexivity.
  - assumption.
  - assumption.
Qed.

Lemma keeps_bindArgs self formals args :
  keeps undisturbed (bindArgs exec self formals args).
Proof.
  revert args. induction formals as [ | formal formals IH]; intros args; simpl.
  - keeps_all.
  - keeps_all.
Qed.

Lemma keeps_store Args :
  keeps undisturbed_below
    (range Args
       (λ (_ : unit) (arg : string * Value),
          modify (set_localVariableStack (store arg.1 arg.2)) ;;
          ret (Next tt)) tt).
Proof.
  apply keeps_range; [exact _ | ]. intros _ arg.
  apply keeps_bind; [exact _ | | intros; apply keeps_ret; exact _].
  intros s. repeat split; try (intros ? ? Hkept; exact Hkept).
  simpl. destruct (localVariableStack s); reflexivity.
Qed.

(** A user-defined method pops the scope it pushed. *)
Lemma keeps_RubyMethod_closure self Args Body :
  keeps undisturbed (RubyMethod_closure exec self Args Body).
Proof.
  intros s. unfold RubyMethod_closure, bind at 1, modify, defer_.
  match goal with
  | |- context [bind ?m ?k ?s1] =>
      assert (keeps undisturbed_below (bind m k)) as Hk;
      [ | specialize (Hk s1); destruct (bind m k s1) as [s' o] ]
  end.
  { apply keeps_bind; [exact _ | apply keeps_store | intros _].
    eapply keeps_weaken; [apply undisturbed_weaken | apply exec_keeps]. }
  destruct Hk as (Hstack & Hlvs & Hfile & Hsym). simpl in *.
  repeat split; simpl; assumption.
Qed.

Lemma keeps_require_from fileName pathStr :
  keeps undisturbed (require_from (Run_body exec) fileName pathStr).
Proof.
  unfold require_from.
  apply keeps_bind; [exact _ | keeps_all | intros path].
  intros s. unfold bind at 1, get.
  destruct (os_Open _); [ | reflexivity].
  destruct (ioutil_ReadAll _) as [contents | ]; [ | reflexivity].
  unfold defer_, bind at 1, modify.
  match goal with
  | |- context [bind ?m ?k ?s1] =>
      assert (keeps undisturbed (bind m k)) as Hk;
      [ | specialize (Hk s1); destruct (bind m k s1) as [s' o] ]
  end.
  { pose proof keeps_Run_body. keeps_all. }
  destruct Hk as (Hstack & Hlvs & Hfile & Hsym). simpl in *.
  repeat split; simpl; assumption.
Qed.

Lemma keeps_cannot_load fileName : keeps undisturbed (cannot_load fileName).
Proof. unfold cannot_load. keeps_all. Qed.

Lemma keeps_require loadPath self args :
  keeps undisturbed (require (Run_body exec) loadPath self args).
Proof.
  pose proof keeps_require_from. pose proof keeps_cannot_load.
  unfold require. keeps_all.
Qed.

Lemma keeps_Execute_body method self args :
  keeps undisturbed
    (Execute_body exec Execute (Run_body exec) method self args).
Proof.
  pose proof keeps_require. pose proof keeps_bindArgs.
  pose proof keeps_RubyMethod_closure.
  unfold Execute_body.
  repeat first
    [ keeps_step
    | match goal with
      | |- keeps undisturbed (λ s, let '(h, o) := builtin_exec _ _ _ _ _ in _) =>
          let s := fresh "s" in
          intros s; destruct (builtin_exec _ _ _ _ _);
          apply set_heap_undisturbed
      end ].
Qed.

End Methods.

(** Whatever the fuel, the context and the program, [executeWithContext]
    and [Execute] leave both stacks, the file name and the interned
    symbols as they found them. *)
Lemma keeps_evaluator fuel :
  (∀ context statements,
     keeps undisturbed (executeWithContext fuel context statements))
  ∧ (∀ method self args, keeps undisturbed (Execute fuel method self args)).
Proof.
  induction fuel as [ | n [IHexec IHExecute]]; split; intros; simpl.
  - apply keeps_out_of_fuel; exact _.
  - apply keeps_out_of_fuel; exact _.
  - apply keeps_executeWithContext_body; assumption.
  - apply keeps_Execute_body; assumption.
Qed.

Lemma keeps_executeWithContext fuel context statements :
  keeps undisturbed (executeWithContext fuel context statements).
Proof. apply keeps_evaluator. Qed.

Lemma keeps_Execute fuel method self args :
  keeps undisturbed (Execute fuel method self args).
Proof. apply keeps_evaluator. Qed.

Lemma keeps_Run fuel input : keeps undisturbed (Run fuel input).
Proof. apply keeps_Run_body, keeps_executeWithContext. Qed.

End Invariants.

(** ** Evaluating statements *)


Section Evaluation.
Context `{Builtins} `{Host}.

Lemma set_stack_id (s : vm) : set_stack (Nat.iter 0 Shift) s = s.
Proof. destruct s. reflexivity. Qed.

(** A sequence of one statement. *)
Lemma single_statement fuel context statement s :
  executeWithContext (S fuel) context [statement] s =
  conclude (executeStatement (executeWithContext fuel) (Execute fuel)
              context statement (s, entry)).
Proof.
  simpl. unfold executeWithContext_body, statements_loop, conclude.
  simpl. unfold bindc, bind at 1 2.
  destruct (executeStatement _ _ _ _ _) as [[s' l] [[[] | r] | msg | ]];
    reflexivity.
Qed.

(** A statement followed by others: when the first goes on to the next
    statement, the rest runs from the state and the variables it left. *)
Lemma statements_cons exec Execute context statement rest sl sl' :
  executeStatement exec Execute context statement sl = (sl', Return (Next tt)) →
  statements_loop exec Execute context (statement :: rest) sl =
  statements_loop exec Execute context rest sl'.
Proof.
  intros Hst. unfold statements_loop. simpl.
  unfold bindc at 1, bind at 1 2. rewrite Hst. reflexivity.
Qed.

(** C10: a global-variable read of a name that was never assigned
    evaluates to the nil value with no error; unlike a bare name, an
    undefined global never raises a name-undefined error.  Inside a
    longer sequence the read sets the value to nil and leaves the error
    variable as it was. *)
Theorem C10_unset_global_reads_nil fuel context name s l :
  CurrentGlobals s !! name = None →
  executeWithContext (S fuel) context [GlobalVariable name] s
    = (s, Return (None, None))
  ∧ exec_GlobalVariable name (s, l)
    = ((s, {| returnValue := None; returnErr := returnErr l;
              deferred := deferred l |}), Return (Next tt)).
Proof.
  intros Hunset. split.
  - rewrite single_statement. simpl.
    unfold exec_GlobalVariable, conclude, index. simpl.
    rewrite Hunset. simpl. rewrite set_stack_id. reflexivity.
  - unfold exec_GlobalVariable, getVM, setReturnValue, next, index.
    unfold bind, get, modify, ret. simpl. rewrite Hunset. reflexivity.
Qed.

(** The condition of an if-block selects the branch by [truthy]. *)
Lemma IfBlock_single fuel context Condition Body Else s :
  executeWithContext (S fuel) context [IfBlock Condition Body Else] s =
  executeWithContext fuel context (if truthy Condition then Body else Else) s.
Proof.
  rewrite single_statement. simpl.
  unfold exec_IfBlock, conclude, inVM, zoom.
  unfold bind, setReturnValue, setReturnErr, next, modify, ret. simpl.
  destruct (truthy Condition);
    match goal with
    | |- context [executeWithContext fuel context ?b s] =>
        destruct (executeWithContext fuel context b s) as [s' [[v e] | msg | ]]
    end; simpl; rewrite ?set_stack_id; reflexivity.
Qed.

(** C1, what the code does: the bare name [nil] as a condition selects
    the then-body, and any other bare name selects the else-body; the
    claim says the opposite.  A literal boolean selects by its value and
    every other kind of condition selects the then-body, as claimed. *)
Theorem C1_bare_name_condition_is_inverted fuel context Body Else s :
  executeWithContext (S fuel) context
    [IfBlock (BareReference "nil") Body Else] s
    = executeWithContext fuel context Body s
  ∧ (∀ name, name ≠ "nil" →
       executeWithContext (S fuel) context
         [IfBlock (BareReference name) Body Else] s
       = executeWithContext fuel context Else s)
  ∧ (∀ b, executeWithContext (S fuel) context
            [IfBlock (Boolean b) Body Else] s
          = executeWithContext fuel context (if b then Body else Else) s)
  ∧ (∀ Condition,
       (∀ b, Condition ≠ Boolean b) → (∀ name, Condition ≠ BareReference name) →
       executeWithContext (S fuel) context [IfBlock Condition Body Else] s
       = executeWithContext fuel context Body s).
Proof.
  repeat split.
  - rewrite IfBlock_single. reflexivity.
  - intros name Hname. rewrite IfBlock_single. simpl.
    destruct (String.eqb_spec name "nil"); [contradiction | reflexivity].
  - intros b. rewrite IfBlock_single. reflexivity.
  - intros Condition Hbool Hbare. rewrite IfBlock_single.
    destruct Condition; try reflexivity.
    + exfalso. eapply Hbool. reflexivity.
    + exfalso. eapply Hbare. reflexivity.
Qed.

(** C5: for every run of the evaluator through [Run], whatever its
    outcome (a value, an error, and also a panic), the call stack and the
    local variable stack are afterwards what they were before; in
    particular their depths are the same. *)
Theorem C5_Run_keeps_stack_depths fuel input s :
  length (stack (Run fuel input s).1) = length (stack s)
  ∧ length (localVariableStack (Run fuel input s).1)
    = length (localVariableStack s)
  ∧ stack (Run fuel input s).1 = stack s
  ∧ localVariableStack (Run fuel input s).1 = localVariableStack s.
Proof.
  destruct (keeps_Run fuel input s) as (Hstack & Hlvs & _ & _).
  rewrite Hstack, Hlvs. repeat split; reflexivity.
Qed.

(** Unfolding the monad in a statement evaluated on its own. *)
Ltac run_go :=
  unfold conclude, inVM, zoom, withProvider, onHeap, update, deref,
    nil_dereference, getVM, getLocals, setReturnValue, setReturnErr,
    return_locals, next;
  unfold bindc, bind, get, modify, ret, panic; simpl.

Ltac run_statement := rewrite single_statement; simpl; run_go.

(** C6: a bare name is looked up in the current local scope, then in
    the Object Space, then in the Class registry, then in the Module
    registry, and the first match is the value of the read, with no
    error; when none matches, the read against a context value [c] of
    class [cls] fails with the name-undefined error that carries the
    display strings of [c] and of [cls] and the rendering of the current
    call stack. *)
Theorem C6_bare_name_resolution_order fuel context name s :
  (∀ v, resolve_bare_name s name = Some v →
     executeWithContext (S fuel) context [BareReference name] s
     = (s, Return (v, None)))
  ∧ (resolve_bare_name s name = None →
     ∀ c cls, context = Some c → Value_Class (heap s) c = Some cls →
       executeWithContext (S fuel) context [BareReference name] s
       = (set_heap (λ _, (name_error name c cls s).1) s,
          Return (None, Some (RubyError (name_error name c cls s).2)))).
Proof.
  unfold resolve_bare_name. split.
  - intros v Hv. run_statement. unfold exec_BareReference. run_go.
   
    repeat case_match; simplify_eq; simpl; rewrite set_stack_id; reflexivity.
  - intros Hnone c cls -> Hcls. run_statement.
    unfold exec_BareReference, name_undefined. run_go.
    destruct (retrieve name (localVariableStack s)); [discriminate | ].
    destruct (ObjectSpace s !! name); [discriminate | ].
    destruct (CurrentClasses s !! name); [discriminate | ].
    destruct (CurrentModules s !! name); [discriminate | ].
    simpl. rewrite Hcls. simpl.
    unfold name_error.
    destruct (NewNameError _ _ _ _ _) as [h e]. simpl.
    destruct s. reflexivity.
Qed.

(** A symbol literal evaluated on its own. *)
Lemma Symbol_single fuel context name s :
  executeWithContext (S fuel) context [Symbol name] s =
  match CurrentSymbols s !! name with
  | Some maybe => (s, Return (maybe, None))
  | None =>
      let hv := NewSymbol name (ClassWithName s) (heap s) in
      (set_CurrentSymbols <[name := Some hv.2]> (set_heap (λ _, hv.1) s),
       Return (Some hv.2, None))
  end.
Proof.
  run_statement. unfold exec_Symbol. run_go.
  destruct (CurrentSymbols s !! name) as [maybe | ]; simpl.
  - rewrite set_stack_id. reflexivity.
  - destruct (NewSymbol _ _ _) as [h v]. simpl. destruct s. reflexivity.
Qed.

(** C7: symbols are interned.  The first evaluation of a symbol literal
    returns a value [v] with no error and leaves it cached under its
    name; when the name was not cached, [v] is the value [NewSymbol]
    creates.  After whatever the evaluator runs next, the cache still
    holds [v], and evaluating the literal again returns [v] itself and
    changes nothing. *)
Theorem C7_symbols_are_interned fuel fuel' fuel'' context context' context''
    name statements s :
  let first := executeWithContext (S fuel) context [Symbol name] s in
  let later := (executeWithContext fuel' context' statements first.1).1 in
  (∃ v, first.2 = Return (v, None)
        ∧ CurrentSymbols first.1 !! name = Some v
        ∧ CurrentSymbols later !! name = Some v
        ∧ executeWithContext (S fuel'') context'' [Symbol name] later
          = (later, Return (v, None)))
  ∧ (CurrentSymbols s !! name = None →
     first.2
     = Return (Some (NewSymbol name (ClassWithName s) (heap s)).2, None)).
Proof.
  intros first later.
  assert (∃ v, first.2 = Return (v, None)
               ∧ CurrentSymbols first.1 !! name = Some v) as (v & Hv & Hcached).
  { subst first. rewrite Symbol_single.
    destruct (CurrentSymbols s !! name) as [maybe | ] eqn:Hname; simpl.
    - exists maybe. split; [reflexivity | exact Hname].
    - eexists. split; [reflexivity | ]. simpl. apply lookup_insert_eq. }
  split.
  - exists v. repeat split; try assumption.
    + subst later.
      apply (keeps_executeWithContext fuel' context' statements first.1).
      exact Hcached.
    + assert (CurrentSymbols later !! name = Some v) as Hlater.
      { subst later.
        apply (keeps_executeWithContext fuel' context' statements first.1).
        exact Hcached. }
      rewrite Symbol_single. rewrite Hlater. reflexivity.
  - intros Hname. subst first. rewrite Symbol_single.
    rewrite Hname. reflexivity.
Qed.

(** A module declaration evaluated on its own. *)
Lemma ModuleDecl_single fuel context Name Body s :
  executeWithContext (S fuel) context [ModuleDecl Name Body] s =
  register_then_declare (NewModule Name)
    (λ m, set_CurrentModules <[Name := Some m]>) Some
    (executeWithContext fuel) Body s.
Proof.
  run_statement. unfold exec_ModuleDecl, register_then_declare.
  run_go.
  destruct (NewModule _ _ _) as [h m]. simpl.
  destruct (executeWithContext fuel _ _ _) as [s' [[v [e | ]] | msg | ]];
    simpl; rewrite ?set_stack_id; reflexivity.
Qed.

(** A class declaration evaluated on its own. *)
Lemma ClassDecl_single fuel context Name Body s :
  executeWithContext (S fuel) context [ClassDecl Name Body] s =
  register_then_declare (NewUserDefinedClass Name)
    (λ c, set_CurrentClasses <[Name := Some c]>) (λ _, None)
    (executeWithContext fuel) Body s.
Proof.
  run_statement. unfold exec_ClassDecl, register_then_declare.
  run_go.
  destruct (NewUserDefinedClass _ _ _) as [h m]. simpl.
  destruct (executeWithContext fuel _ _ _) as [s' [[v [e | ]] | msg | ]];
    simpl; rewrite ?set_stack_id; reflexivity.
Qed.

(** C8, as amended: a module or class declaration always creates a new
    Module or Class, registers it under its name at once, replacing any
    earlier entry, and then evaluates the body with it as the context;
    the body already finds it in the registry.  A module declaration
    evaluates to the module and a class declaration to no value, each
    with the error of the body. *)
Theorem C8_declaration_registers_before_body fuel context Name Body s :
  let exec := executeWithContext fuel in
  let created (create : string → ClassProvider → Heap → Heap * ref) :=
    create Name (ClassWithName s) (heap s) in
  let m := created NewModule in
  let sm := set_CurrentModules <[Name := Some m.2]> (set_heap (λ _, m.1) s) in
  let c := created NewUserDefinedClass in
  let sc := set_CurrentClasses <[Name := Some c.2]> (set_heap (λ _, c.1) s) in
  CurrentModules sm !! Name = Some (Some m.2)
  ∧ executeWithContext (S fuel) context [ModuleDecl Name Body] s
    = ((exec (Some m.2) Body sm).1,
       match (exec (Some m.2) Body sm).2 with
       | Return r => Return (Some m.2, r.2)
       | Panic msg => Panic msg
       | OutOfFuel => OutOfFuel
       end)
  ∧ CurrentClasses sc !! Name = Some (Some c.2)
  ∧ executeWithContext (S fuel) context [ClassDecl Name Body] s
    = ((exec (Some c.2) Body sc).1,
       match (exec (Some c.2) Body sc).2 with
       | Return r => Return (None, r.2)
       | Panic msg => Panic msg
       | OutOfFuel => OutOfFuel
       end).
Proof.
  intros exec created m sm c sc. subst exec created m sm c sc.
  repeat split.
  - apply lookup_insert_eq.
  - rewrite ModuleDecl_single. unfold register_then_declare.
    unfold withProvider, onHeap, bind, modify, ret.
    destruct (NewModule _ _ _) as [h m]. simpl.
    destruct (executeWithContext fuel _ _ _) as [s' [r | msg | ]]; reflexivity.
  - apply lookup_insert_eq.
  - rewrite ClassDecl_single. unfold register_then_declare.
    unfold withProvider, onHeap, bind, modify, ret.
    destruct (NewUserDefinedClass _ _ _) as [h m]. simpl.
    destruct (executeWithContext fuel _ _ _) as [s' [r | msg | ]]; reflexivity.
Qed.

(** ** Begin and rescue *)

Lemma bind_ext {S A B} (m : SO S A) (k k' : A → SO S B) s :
  (∀ a s', k a s' = k' a s') → bind m k s = bind m k' s.
Proof.
  intros Hk. unfold bind. destruct (m s) as [s' [a | msg | ]]; auto.
Qed.

Section Rescue.
Variable exec : Value → list Node → M result.
Variable context : Value.
Variable original : ref.

(** The loop over the class names of one clause, followed by what the
    loop over the clauses does with its answer, is the search through
    the handlers of the clause and then the remaining ones. *)
Lemma rescueClasses_search Body Classes rest err s :
  bind (rescueClasses exec context original Body Classes err)
    (λ em, if em.2 then ret em.1
           else rescue_search exec context original rest em.1) s
  = rescue_search exec context original
      (map (λ c, (c, Body)) Classes ++ rest) err s.
Proof.
  revert err s. induction Classes as [ | c Classes IH]; intros err s.
  - reflexivity.
  - cbn [rescueClasses map app rescue_search].
    unfold bind at 1 2 4, get. cbn [fst snd].
    destruct (String.eqb_spec c (Value_String (heap s) original)) as [Heq | Hne];
      destruct (decide (c = Value_String (heap s) original)) as [Heq' | Hne'];
      try contradiction.
    + unfold bind.
      destruct (exec context Body s) as [s' [[v [e | ]] | msg | ]];
        cbn [fst snd]; try reflexivity.
      apply (IH (Some e) s').
    + apply (IH err s).
Qed.

Lemma rescueClauses_matched rescues err s :
  rescueClauses exec context original rescues err true s = (s, Return err).
Proof. destruct rescues; reflexivity. Qed.

(** The two nested loops of vm.go:486-501 are one search through the
    handlers in source order, against the error first raised. *)
Lemma rescueClauses_search rescues err s :
  Forall (λ n, is_Rescue n = true) rescues →
  rescueClauses exec context original rescues err false s
  = rescue_search exec context original (handlers rescues) err s.
Proof.
  intros Hall. revert err s.
  induction Hall as [ | r rescues Hr Hall IH]; intros err s.
  - reflexivity.
  - destruct r; try discriminate.
    cbn [rescueClauses handlers flat_map].
    rewrite <- rescueClasses_search. apply bind_ext.
    intros [e [ | ]] s'; cbn [fst snd].
    + apply rescueClauses_matched.
    + apply IH.
Qed.

End Rescue.

(** A begin block whose body raises a Ruby error searches its handlers. *)
Lemma Begin_raises fuel context Body rescues s s1 v0 original :
  Forall (λ n, is_Rescue n = true) rescues →
  executeWithContext fuel context Body s
    = (s1, Return (v0, Some (RubyError original))) →
  executeWithContext (S fuel) context [Begin Body rescues] s
  = leave_Begin (rescue_search (executeWithContext fuel) context original
                   (handlers rescues) (Some (RubyError original)) s1).
Proof.
  intros Hall Hbody. run_statement. unfold exec_Begin. run_go.
  rewrite Hbody. simpl.
  rewrite rescueClauses_search by assumption.
  unfold leave_Begin.
  destruct (rescue_search _ _ _ _ _ _) as [s2 [[e | ] | msg | ]]; simpl;
    rewrite ?set_stack_id; reflexivity.
Qed.

(** Handlers whose names do not match are passed over. *)
Lemma rescue_search_skip exec context original skipped rest err s :
  Forall (λ h : string * list Node, h.1 ≠ Value_String (heap s) original)
    skipped →
  rescue_search exec context original (skipped ++ rest) err s
  = rescue_search exec context original rest err s.
Proof.
  induction 1 as [ | [name Body] skipped Hname _ IH]; [reflexivity | ].
  cbn [app rescue_search]. unfold bind at 1, get.
  destruct (decide (name = Value_String (heap s) original));
    [contradiction | exact IH].
Qed.

(** C2: in a begin/rescue construct whose protected body raised the
    error [original], take the handlers in source order, one per
    declared exception-class name.  When the first handler whose name
    textually equals the display string of [original] has a recovery
    body that itself raises [e1], the construct goes on with the
    remaining class names and clauses, and each of them is matched
    against [original], not against [e1]: the construct leaves what that
    search leaves. *)
Theorem C2_failed_recovery_resumes_search_on_original_error
    fuel context Body rescues skipped name Recovery rest original
    s s1 s2 v0 v1 e1 :
  Forall (λ n, is_Rescue n = true) rescues →
  handlers rescues = (skipped ++ (name, Recovery) :: rest)%list →
  executeWithContext fuel context Body s
    = (s1, Return (v0, Some (RubyError original))) →
  Forall (λ h : string * list Node, h.1 ≠ Value_String (heap s1) original)
    skipped →
  name = Value_String (heap s1) original →
  executeWithContext fuel context Recovery s1 = (s2, Return (v1, Some e1)) →
  executeWithContext (S fuel) context [Begin Body rescues] s
  = leave_Begin (rescue_search (executeWithContext fuel) context original
                   rest (Some e1) s2).
Proof.
  intros Hall Hhandlers Hbody Hskipped Hname Hrecovery.
  rewrite (Begin_raises _ _ _ _ _ _ _ _ Hall Hbody), Hhandlers.
  rewrite rescue_search_skip by assumption.
  f_equal. cbn [rescue_search]. unfold bind at 1, get.
  destruct (decide (name = Value_String (heap s1) original)); [ | contradiction].
  unfold bind at 1. rewrite Hrecovery. reflexivity.
Qed.

(** ** Assignment *)

(** C4, what the code does: an assignment does not set the result of
    the sequence it is in.  Once its right-hand side evaluated to [v]
    the name is bound to [v], but the value the sequence would return is
    left as the statements before the assignment set it, and a sequence
    that is only an assignment returns nil, not [v]. *)
Theorem C4_assignment_does_not_set_the_result fuel context Name RHS s s1 v l :
  executeWithContext fuel context [RHS] s = (s1, Return (v, None)) →
  exec_Assignment (executeWithContext fuel) context (BareReference Name) RHS
    (s, l)
  = ((set_ObjectSpace <[Name := v]> s1, l), Return (Next tt))
  ∧ executeWithContext (S fuel) context
      [Assignment (BareReference Name) RHS] s
    = (set_ObjectSpace <[Name := v]> s1, Return (None, None)).
Proof.
  intros HRHS. split.
  - unfold exec_Assignment. run_go. rewrite HRHS. reflexivity.
  - run_statement. unfold exec_Assignment. run_go. rewrite HRHS. simpl.
    rewrite set_stack_id. reflexivity.
Qed.

(** ** require *)

(** A load path none of whose entries holds the file. *)
Lemma require_not_found Run fileName members s :
  Forall (λ p, ∃ dir, p = Some dir ∧ is_StringValue (heap s) dir = true
               ∧ os_Open (filepath_Join (Value_String (heap s) dir)
                            (fileName ++ ".rb")) = false) members →
  range members (λ _ pathStr, require_from Run fileName pathStr) tt s
  = (s, Return (Next tt)).
Proof.
  induction 1 as [ | p members (dir & -> & Hstr & Hopen) _ IH]; [reflexivity | ].
  cbn [range]. unfold bindc, bind at 1, require_from, assert_type.
  unfold bind at 1 2, get. cbn [fst snd]. rewrite Hstr.
  unfold ret at 1. unfold bind at 1. cbn [fst snd].
  rewrite Hopen. unfold ret at 1. exact IH.
Qed.

(** C9: a call of the [require] method of [main] with the name of a
    file that none of the load-path directories holds under that name
    with [.rb] appended returns the Load error whose message is
    [LoadError: cannot load such file -- ] followed by the requested
    name and which carries the rendering of the current call stack.  The
    name [rubygems] is not searched for: the call answers what [New] on
    the class [False] answers, so no error when that gives none. *)
Theorem C9_require_missing_file_and_rubygems
    fuel method loadPath self str args s :
  Method_Impl (heap s) method = Some (NativeMethod (main_require loadPath)) →
  is_StringValue (heap s) str = true →
  let fileName := Value_String (heap s) str in
  let call := Execute (S fuel) (Some method) self (Some str :: args) s in
  (fileName ≠ "rubygems" →
   ∀ lp, loadPath = Some lp → is_Array (heap s) lp = true →
   Forall (λ p, ∃ dir, p = Some dir ∧ is_StringValue (heap s) dir = true
                ∧ os_Open (filepath_Join (Value_String (heap s) dir)
                             (fileName ++ ".rb")) = false)
     (Array_Members (heap s) lp) →
   let he := NewLoadError ("LoadError: cannot load such file -- " ++ fileName)
               (CallStack_String (stack s)) (heap s) in
   call = (set_heap (λ _, he.1) s, Return (None, Some (RubyError he.2))))
  ∧ (fileName = "rubygems" →
     ∀ cls h v, index (CurrentClasses s) "False" = Some cls →
     Class_New cls (ClassWithName s) (heap s) = (h, (v, None)) →
     call = (set_heap (λ _, h) s, Return (v, None))).
Proof.
  intros Himpl Hstr fileName call. subst call fileName.
  cbn [Execute].
  unfold Execute_body, require, deref, assert_type, bind, ret, get.
  cbn [fst snd]. rewrite Himpl, Hstr. split.
  - intros Hname lp -> Harray Hmissing.
    destruct (String.eqb_spec (Value_String (heap s) str) "rubygems");
      [contradiction | ].
    rewrite Harray, (require_not_found _ _ _ _ Hmissing).
    unfold cannot_load, bind, get, onHeap, ret. cbn [fst snd].
    destruct (NewLoadError _ _ _) as [h e]. reflexivity.
  - intros Hname cls h v Hcls Hnew.
    destruct (String.eqb_spec (Value_String (heap s) str) "rubygems");
      [ | contradiction].
    rewrite Hcls. unfold withProvider, onHeap. rewrite Hnew. reflexivity.
Qed.

End Evaluation.

(** ** The evaluator at work on the reference implementation *)

(** A computation that returned [r] is its final state with [r]. *)
Lemma returned_eq {S} (x : S * outcome (option ref * option goerr)) r :
  returned x = Some r → x = (x.1, Return r).
Proof.
  destruct x as [s [a | msg | ]]; unfold returned; simpl; congruence.
Qed.

Section Runs.
Import RefImpl Examples.
#[local] Existing Instance machine.

(** A run that succeeds and a run that returns an error both return,
    and leave the stacks empty as they found them. *)
Example Run_returns :
  value (Run 2 "1" boot) = Some (DFixnum 1)
  ∧ backtrace (Run 2 "qux" boot) = Some "main (STDIN)"
  ∧ returned (Run 2 "not ruby" boot) = Some (None, Some (ParseError "STDIN"))
  ∧ stack (Run 2 "qux" boot).1 = []
  ∧ localVariableStack (Run 2 "qux" boot).1 = [].
Proof. vm_compute. repeat split; reflexivity. Qed.

(** The failing input of C1, end to end: [if nil] takes the then-branch
    and [if foo] the else-branch. *)
Example if_nil_takes_then_branch :
  value (Run 3 "if nil then 1 else 2 end" boot) = Some (DFixnum 1)
  ∧ value (Run 3 "if foo then 1 else 2 end" boot) = Some (DFixnum 2).
Proof. vm_compute. split; reflexivity. Qed.

Lemma C2_witness :
  let r := executeWithContext 6 main [rescued] boot in
  returned r = Some (None, None)
  ∧ CurrentGlobals r.1 !! "by_new_error" = None
  ∧ CurrentGlobals r.1 !! "by_original_error" ≠ None.
Proof.
  assert (returned (executeWithContext 5 main [BareReference "qux"] boot)
          = Some (None, Some (RubyError 26%positive))) as Hbody
    by (vm_compute; reflexivity).
  assert (returned (executeWithContext 5 main [call_on_nil] after_body)
          = Some (None, Some (RubyError 28%positive))) as Hrecovery
    by (vm_compute; reflexivity).
  assert ("NameError" = Value_String (heap after_body) 26%positive) as Hname
    by (vm_compute; reflexivity).
  assert (Forall (λ h : string * list Node,
                    h.1 ≠ Value_String (heap after_body) 26%positive)
            [("LoadError", [call_on_nil])]) as Hskipped
    by (repeat constructor; vm_compute; discriminate).
  assert (Forall (λ n, is_Rescue n = true)
            [Rescue ["LoadError"; "NameError"] [call_on_nil];
             Rescue ["NoMethodError"]
               [Assignment (GlobalVariable "by_new_error") (ConstantInt 1)];
             Rescue ["NameError"]
               [Assignment (GlobalVariable "by_original_error")
                  (ConstantInt 1)]]) as Hall
    by (repeat constructor).
  unfold rescued.
  rewrite (C2_failed_recovery_resumes_search_on_original_error
             5 main [BareReference "qux"] _ [("LoadError", [call_on_nil])]
             "NameError" [call_on_nil]
             [("NoMethodError",
               [Assignment (GlobalVariable "by_new_error") (ConstantInt 1)]);
              ("NameError",
               [Assignment (GlobalVariable "by_original_error")
                  (ConstantInt 1)])]
             26%positive boot after_body after_recovery None None
             (RubyError 28%positive)
             Hall eq_refl
             (returned_eq
                (executeWithContext 5 main [BareReference "qux"] boot)
                _ Hbody)
             Hskipped Hname
             (returned_eq
                (executeWithContext 5 main [call_on_nil] after_body)
                _ Hrecovery)).
  vm_compute. repeat split. discriminate.
Defined.

(** C3, what the code does: the frame of a call that succeeded is still
    on the call stack while the statements after the call are evaluated.
    The name error of [to_s; qux] carries the frame of [to_s], which a
    lone [qux] does not; the frame is popped when the enclosing sequence
    of statements is left. *)
Theorem C3_frame_of_a_call_outlives_the_call :
  backtrace (Run 3 "to_s; qux" boot) = Some "to_s (STDIN); main (STDIN)"
  ∧ backtrace (Run 3 "qux" boot) = Some "main (STDIN)"
  ∧ stack (Run 3 "to_s; qux" boot).1 = [].
Proof. vm_compute. repeat split; reflexivity. Qed.

Lemma C4_witness :
  returned (executeWithContext 3 main
              [Assignment (BareReference "x") (ConstantInt 2)] boot)
  = Some (None, None)
  ∧ value (Run 3 "1; x = 2" boot) = Some (DFixnum 1).
Proof.
  split.
  - assert (returned (executeWithContext 2 main [ConstantInt 2] boot)
            = Some (Some 26%positive, None)) as HRHS
      by (vm_compute; reflexivity).
    rewrite (proj2 (C4_assignment_does_not_set_the_result
                      2 main "x" (ConstantInt 2) boot after_two
                      (Some 26%positive) entry
                      (returned_eq
                         (executeWithContext 2 main [ConstantInt 2] boot)
                         _ HRHS))).
    reflexivity.
  - vm_compute. reflexivity.
Defined.

Lemma C6_witness :
  raised (executeWithContext 1 main [BareReference "qux"] boot)
  = Some (DError "NameError"
            "undefined local variable or method 'qux' for #<Object>:Object"
            EmptyString)
  ∧ executeWithContext 1 main [BareReference "ARGV"] boot
    = (boot, Return (index (ObjectSpace boot) "ARGV", None)).
Proof.
  destruct (C6_bare_name_resolution_order 0 main "qux" boot) as [_ Hqux].
  destruct (C6_bare_name_resolution_order 0 main "ARGV" boot) as [HARGV _].
  split.
  - rewrite (Hqux ltac:(vm_compute; reflexivity) 23%positive 2%positive
               ltac:(vm_compute; reflexivity) ltac:(vm_compute; reflexivity)).
    vm_compute. reflexivity.
  - apply HARGV. vm_compute. reflexivity.
Defined.

(** C8, the claim as stated fails: declared in the order the claim
    gives, [module Foo; Foo; end] would raise a name error in its body;
    the code registers [Foo] first and evaluates to the module, without
    an error. *)
Lemma C8_body_finds_the_module_registered :
  returned (executeWithContext 3 main
              [ModuleDecl "Foo" [BareReference "Foo"]] boot)
  = Some (Some 26%positive, None)
  ∧ returned (declare_then_register (executeWithContext 2) "Foo"
                [BareReference "Foo"] boot)
    = Some (Some 26%positive, Some (RubyError 27%positive))
  ∧ executeWithContext 3 main [ModuleDecl "Foo" [BareReference "Foo"]] boot
    ≠ declare_then_register (executeWithContext 2) "Foo"
        [BareReference "Foo"] boot.
Proof.
  assert (returned (executeWithContext 3 main
                      [ModuleDecl "Foo" [BareReference "Foo"]] boot)
          = Some (Some 26%positive, None)) as Hcode
    by (vm_compute; reflexivity).
  assert (returned (declare_then_register (executeWithContext 2) "Foo"
                      [BareReference "Foo"] boot)
          = Some (Some 26%positive, Some (RubyError 27%positive))) as Hclaim
    by (vm_compute; reflexivity).
  repeat split; try assumption.
  intros Heq. rewrite Heq, Hclaim in Hcode. clear Heq. discriminate Hcode.
Qed.

Lemma C9_witness :
  raised (Execute 1 require_method main [Some the_string]
            (with_string "missing_file"))
  = Some (DError "LoadError"
            "LoadError: cannot load such file -- missing_file" EmptyString)
  ∧ returned (Execute 1 require_method main [Some the_string]
                (with_string "rubygems"))
    = Some (Some 27%positive, None).
Proof.
  split.
  - destruct (C9_require_missing_file_and_rubygems
                0 25%positive load_path main the_string []
                (with_string "missing_file")
                ltac:(vm_compute; reflexivity) ltac:(vm_compute; reflexivity))
      as [Hmissing _].
    change (Some 25%positive) with require_method in Hmissing.
    rewrite (Hmissing ltac:(vm_compute; discriminate) 20%positive
               ltac:(vm_compute; reflexivity) ltac:(vm_compute; reflexivity)).
    + vm_compute. reflexivity.
    + vm_compute. repeat constructor.
      exists 21%positive. repeat split; vm_compute; reflexivity.
  - destruct (C9_require_missing_file_and_rubygems
                0 25%positive load_path main the_string []
                (with_string "rubygems")
                ltac:(vm_compute; reflexivity) ltac:(vm_compute; reflexivity))
      as [_ Hgems].
    change (Some 25%positive) with require_method in Hgems.
    set (new := Class_New 14%positive (ClassWithName (with_string "rubygems"))
                  (heap (with_string "rubygems"))).
    rewrite (Hgems ltac:(vm_compute; reflexivity) 14%positive new.1 new.2.1
               ltac:(vm_compute; reflexivity) ltac:(vm_compute; reflexivity)).
    vm_compute. reflexivity.
Defined.

(** The same calls, end to end through [Run]: the error carries the
    frames of [require] and of the run. *)
Example require_end_to_end :
  raised (Run 3 "require 'missing_file'" boot)
  = Some (DError "LoadError"
            "LoadError: cannot load such file -- missing_file"
            "require (STDIN); main (STDIN)")
  ∧ returned (Run 3 "require 'rubygems'" boot) = Some (Some 27%positive, None)
  ∧ stack (Run 7 "require 'lib1'" boot).1 = [].
Proof. vm_compute. repeat split; reflexivity. Qed.

Lemma C10_witness :
  executeWithContext 1 main [GlobalVariable "unset"] boot
  = (boot, Return (None, None)).
Proof.
  apply (C10_unset_global_reads_nil 0 main "unset" boot entry).
  vm_compute. reflexivity.
Defined.

End Runs.

(** ** The registries, read and written by the host *)

Section Registries.
Context `{Builtins} `{Host}.

(** X1: What [Set] binds, [Get] returns, whatever the other registries hold
    under that key, and [Set] leaves every other key as [Get] saw it. *)
Theorem Get_after_Set key value other s :
  Get key (Set_ key value s) = (value, None)
  ∧ (other ≠ key → Get other (Set_ key value s) = Get other s).
Proof.
  unfold Get, Set_. simpl. split.
  - rewrite lookup_insert_eq. reflexivity.
  - intros Hother. rewrite lookup_insert_ne by congruence. reflexivity.
Qed.


Section Classes.
Variable Class_Name : Heap → ref → string.

Lemma find_class_found h name visited c :
  find_class Class_Name h name visited = Return (Some c) →
  Class_Name h c = name ∧ ∃ k, (k, Some c) ∈ visited.
Proof.
  induction visited as [ | [k [c' | ]] visited IH]; simpl; try discriminate.
  destruct (String.eqb_spec (Class_Name h c') name) as [Hname | Hname].
  - intros [= ->]. split; [assumption | ]. exists k. left.
  - intros Hfound. destruct (IH Hfound) as (Hc & k' & Hk').
    split; [assumption | ]. exists k'. right. assumption.
Qed.

Lemma find_class_not_found h name visited :
  find_class Class_Name h name visited = Return None →
  ∀ k c, (k, Some c) ∈ visited → Class_Name h c ≠ name.
Proof.
  induction visited as [ | [k [c' | ]] visited IH]; simpl; try discriminate.
  - intros _ k c Hin. inversion Hin.
  - destruct (String.eqb_spec (Class_Name h c') name) as [Hname | Hname];
      [discriminate | ].
    intros Hnone k' c Hin. apply elem_of_cons in Hin as [[= -> ->] | Hin].
    + assumption.
    + eapply IH; eassumption.
Qed.

Lemma find_class_returns h name visited :
  (∀ k, (k, None) ∉ visited) →
  ∃ found, find_class Class_Name h name visited = Return found.
Proof.
  induction visited as [ | [k [c' | ]] visited IH]; simpl; intros Hnil.
  - eexists. reflexivity.
  - destruct (String.eqb (Class_Name h c') name); [eexists; reflexivity | ].
    apply IH. intros k' Hin. apply (Hnil k'). right. assumption.
  - exfalso. apply (Hnil k). left.
Qed.

(** X3: [GetClass] looks for a class by the name the class itself gives,
    not by the key it is registered under, visiting the registry in an
    order Go chooses.  When no key is bound to nil, then in whatever
    order the registry is visited it returns, without an error, a
    registered class of that name if there is one, and the error [Class
    'name' not found] otherwise, exactly when [MustGetClass] panics;
    when at most one registered class has the name, the answer is the
    same for every order. *)
Theorem GetClass_finds_a_registered_class_of_that_name visited name s :
  visited ≡ₚ map_to_list (CurrentClasses s) →
  (∀ k, CurrentClasses s !! k ≠ Some None) →
  ((∃ c, GetClass Class_Name visited name s = Return (Some c, None)
         ∧ MustGetClass Class_Name visited name s = Return (Some c)
         ∧ Class_Name (heap s) c = name
         ∧ ∃ k, CurrentClasses s !! k = Some (Some c))
   ∨ (GetClass Class_Name visited name s
      = Return (None, Some (GoError ("Class '" ++ name ++ "' not found")))
      ∧ MustGetClass Class_Name visited name s
        = Panic ("class '" ++ name ++ "' requested, but does not exist")
      ∧ ∀ k c, CurrentClasses s !! k = Some (Some c) →
               Class_Name (heap s) c ≠ name))
  ∧ ((∀ k k' c c', CurrentClasses s !! k = Some (Some c) →
                   CurrentClasses s !! k' = Some (Some c') →
                   Class_Name (heap s) c = name →
                   Class_Name (heap s) c' = name → c = c') →
     ∀ visited', visited' ≡ₚ map_to_list (CurrentClasses s) →
       GetClass Class_Name visited' name s = GetClass Class_Name visited name s).
Proof.
  intros Hvisited Hnil.
  assert (∀ v, v ≡ₚ map_to_list (CurrentClasses s) →
            ∀ k x, (k, x) ∈ v ↔ CurrentClasses s !! k = Some x) as Hin.
  { intros v Hv k x. rewrite Hv. apply elem_of_map_to_list. }
  assert (∀ v, v ≡ₚ map_to_list (CurrentClasses s) →
            ∃ found, find_class Class_Name (heap s) name v = Return found
                     ∧ match found with
                       | Some c => Class_Name (heap s) c = name
                                   ∧ ∃ k, CurrentClasses s !! k = Some (Some c)
                       | None => ∀ k c, CurrentClasses s !! k = Some (Some c) →
                                        Class_Name (heap s) c ≠ name
                       end) as Hfind.
  { intros v Hv.
    destruct (find_class_returns (heap s) name v) as [found Hfound].
    { intros k Hk. apply (Hin v Hv) in Hk. exact (Hnil k Hk). }
    exists found. split; [assumption | ]. destruct found as [c | ].
    - destruct (find_class_found _ _ _ _ Hfound) as (Hc & k & Hk).
      split; [assumption | ]. exists k. apply (Hin v Hv). assumption.
    - intros k c Hk. eapply find_class_not_found; [eassumption | ].
      apply (Hin v Hv). eassumption. }
  split.
  - destruct (Hfind visited Hvisited) as ([c | ] & Hfound & Hc);
      unfold GetClass, MustGetClass; rewrite Hfound.
    + left. exists c. destruct Hc. auto.
    + right. auto.
  - intros Hunique visited' Hvisited'.
    destruct (Hfind visited Hvisited) as ([c | ] & Hfound & Hc);
      destruct (Hfind visited' Hvisited') as ([c' | ] & Hfound' & Hc');
      unfold GetClass; rewrite Hfound, Hfound'; try reflexivity.
    + destruct Hc as (Hc & k & Hk). destruct Hc' as (Hc' & k' & Hk').
      rewrite (Hunique _ _ _ _ Hk' Hk Hc' Hc). reflexivity.
    + destruct Hc as (Hc & k & Hk). destruct (Hc' _ _ Hk Hc).
    + destruct Hc' as (Hc' & k' & Hk'). destruct (Hc _ _ Hk' Hc').
Qed.

End Classes.

End Registries.

(** ** The trace printed after a parse error *)

(** X4: [main] prints at most [threshold] = 61 entries of the parser's
    trace: all of them when there are no more than that, and otherwise
    exactly the last 61, in their order. *)
Theorem reported_is_the_end_of_the_trace (debugStatements : list string) :
  length (reported debugStatements) = min (length debugStatements) threshold
  ∧ ∃ skipped,
      debugStatements = (skipped ++ reported debugStatements)%list
      ∧ length skipped = length debugStatements - threshold.
Proof.
  unfold reported. cbv zeta.
  destruct (Nat.leb_spec (length debugStatements) threshold) as [Hle | Hgt].
  - split; [lia | ]. exists []. split; [reflexivity | simpl; lia].
  - split.
    + rewrite length_drop. lia.
    + exists (take (length debugStatements - threshold) debugStatements).
      split; [symmetry; apply take_drop | ].
      rewrite length_take. lia.
Qed.

(** ** Invariants of evaluation *)

(** X5: Every evaluation of a sequence of statements and every execution
    of a method leaves the call stack, the local variable stack and the
    current file name exactly as it found them, whatever its outcome:
    the frames pushed for the calls of a sequence are all popped when the
    sequence is left, a method pops its scope, and [require] puts the
    file name back; a run leaves the file name as it found it. *)
Theorem evaluation_restores_stacks_and_file_name `{Builtins} `{Host}
    fuel context statements method self args input s :
  let after := (executeWithContext fuel context statements s).1 in
  let called := (Execute fuel method self args s).1 in
  (stack after = stack s
   ∧ localVariableStack after = localVariableStack s
   ∧ currentFilename after = currentFilename s)
  ∧ (stack called = stack s
     ∧ localVariableStack called = localVariableStack s
     ∧ currentFilename called = currentFilename s)
  ∧ currentFilename (Run fuel input s).1 = currentFilename s.
Proof.
  intros after called. subst after called.
  destruct (keeps_executeWithContext fuel context statements s)
    as (Hstack & Hscopes & Hfile & _).
  destruct (keeps_Execute fuel method self args s)
    as (Hstack' & Hscopes' & Hfile' & _).
  destruct (keeps_Run fuel input s) as (_ & _ & Hrun & _).
  repeat split; assumption.
Qed.

(** *** Relations that every step of the evaluator keeps *)

Section Kept.
Context `{Builtins} `{Host}.
Variable R : vm → vm → Prop.
Context `{!PreOrder R}.
Hypothesis R_heap : ∀ f s, R s (set_heap f s).
Hypothesis R_stack : ∀ f s, R s (set_stack f s).
Hypothesis R_scopes : ∀ f s, R s (set_localVariableStack f s).
Hypothesis R_file : ∀ f s, R s (set_currentFilename f s).
Hypothesis R_ObjectSpace : ∀ k v s, R s (set_ObjectSpace <[k := v]> s).
Hypothesis R_Globals : ∀ k v s, R s (set_CurrentGlobals <[k := v]> s).
Hypothesis R_Classes : ∀ k v s, R s (set_CurrentClasses <[k := v]> s).
Hypothesis R_Modules : ∀ k v s, R s (set_CurrentModules <[k := v]> s).
Hypothesis R_Symbols :
  ∀ k v s, CurrentSymbols s !! k = None →
           R s (set_CurrentSymbols <[k := v]> s).

#[local] Instance on_vm_preorder : PreOrder (on_vm R).
Proof.
  split.
  - intros sl. unfold on_vm. reflexivity.
  - intros sl1 sl2 sl3. unfold on_vm. intros H12 H23.
    etransitivity; eassumption.
Qed.

Lemma kept_onHeap {A} (f : Heap → Heap * A) : keeps R (onHeap f).
Proof.
  intros s. unfold onHeap. destruct (f (heap s)) as [h a]. apply R_heap.
Qed.

Lemma kept_withProvider {A} (f : ClassProvider → Heap → Heap * A) :
  keeps R (withProvider f).
Proof. intros s. unfold withProvider. apply kept_onHeap. Qed.

Lemma kept_update f : keeps R (update f).
Proof. intros s. apply R_heap. Qed.

Lemma kept_assert_type is_T v : keeps R (assert_type is_T v).
Proof.
  intros s. unfold assert_type, bind, get. destruct v as [r | ]; simpl.
  - destruct (is_T (heap s) r); reflexivity.
  - reflexivity.
Qed.

Lemma kept_inVM {A} (m : M A) : keeps R m → keeps (on_vm R) (inVM m).
Proof.
  intros Hm [s l]. unfold inVM, zoom, on_vm. simpl.
  specialize (Hm s). destruct (m s) as [s' o]. exact Hm.
Qed.

Lemma kept_locals {A} (m : L A) :
  (∀ sl, (m sl).1.1 = sl.1) → keeps (on_vm R) m.
Proof. intros Hm sl. unfold on_vm. rewrite Hm. reflexivity. Qed.

Lemma kept_defer {A} (cleanup : vm → vm) (m : M A) :
  (∀ s, R s (cleanup s)) → keeps R m → keeps R (defer_ cleanup m).
Proof.
  intros Hcleanup Hm s. unfold defer_. specialize (Hm s).
  destruct (m s) as [s' o]. simpl in *.
  etransitivity; [exact Hm | apply Hcleanup].
Qed.

Ltac kept_step :=
  first
    [ assumption
    | match goal with Hk : _ |- keeps _ _ => apply Hk end
    | match goal with
      | |- keeps _ (bindc _ _) => apply keeps_bindc; [ exact _ | | intros ? ]
      | |- keeps _ (bind _ _) => apply keeps_bind; [ exact _ | | intros ? ]
      | |- keeps _ (range _ _ _) => apply keeps_range; [ exact _ | intros ? ? ]
      | |- keeps _ (defer_ _ _) =>
          apply kept_defer;
          [ intros ?; first [ apply R_stack | apply R_scopes | apply R_file ]
          | ]
      | |- keeps _ (inVM _) => apply kept_inVM
      | |- keeps _ (modify _) =>
          apply keeps_modify; intros ?;
          first [ apply R_ObjectSpace | apply R_Globals | apply R_Classes
                | apply R_Modules | apply R_stack | apply R_scopes
                | apply R_file ]
      | |- keeps _ (match ?x with _ => _ end) => destruct x
      end
    | apply keeps_ret; exact _ | apply keeps_panic; exact _
    | apply keeps_get; exact _ | apply keeps_deref; exact _
    | apply kept_locals; intros [? ?]; reflexivity
    | apply kept_onHeap | apply kept_withProvider | apply kept_update
    | apply kept_assert_type
    | progress cbv zeta ].

Ltac kept_all := repeat kept_step.

Section Steps.
Variable exec : Value → list Node → M result.
Variable Execute : Value → Value → list Value → M result.
Hypothesis exec_kept : ∀ c st, keeps R (exec c st).
Hypothesis Execute_kept : ∀ m self args, keeps R (Execute m self args).

Lemma kept_exec_Symbol name : keeps (on_vm R) (exec_Symbol name).
Proof.
  intros [s l]. unfold exec_Symbol, getVM, bind, get, ret, on_vm. simpl.
  destruct (CurrentSymbols s !! name) as [maybe | ] eqn:Hname; simpl.
  - reflexivity.
  - unfold inVM, zoom, withProvider, onHeap. simpl.
    destruct (NewSymbol name (ClassWithName s) (heap s)) as [h v]. simpl.
    etransitivity; [apply (R_heap (λ _, h)) | ].
    apply (R_Symbols name (Some v) (set_heap (λ _, h) s)). exact Hname.
Qed.

Lemma kept_rescueClasses context rubyErr Body Classes err :
  keeps R (rescueClasses exec context rubyErr Body Classes err).
Proof.
  revert err. induction Classes as [ | c Classes IH]; intros err; simpl;
    kept_all.
Qed.

Lemma kept_rescueClauses context rubyErr rescues err matchingRescue :
  keeps R (rescueClauses exec context rubyErr rescues err matchingRescue).
Proof.
  pose proof kept_rescueClasses.
  revert err matchingRescue.
  induction rescues as [ | r rescues IH]; intros err matchingRescue; simpl;
    kept_all.
Qed.

Lemma kept_hashPairs context hash Pairs :
  keeps R (hashPairs exec context hash Pairs).
Proof. induction Pairs as [ | p Pairs IH]; simpl; kept_all. Qed.

Lemma kept_executeStatement context statement :
  keeps (on_vm R) (executeStatement exec Execute context statement).
Proof.
  pose proof kept_exec_Symbol. pose proof kept_rescueClauses.
  pose proof kept_hashPairs.
  destruct statement; simpl;
    unfold exec_IfBlock, exec_Alias, exec_ModuleDecl, exec_ClassDecl,
      exec_FuncDecl, exec_String, exec_Boolean, exec_GlobalVariable,
      exec_ConstantInt, exec_ConstantFloat, exec_BareReference,
      name_undefined, exec_CallExpression, nil_target, resolve, evalArgs,
      exec_Assignment, exec_Begin, exec_Array, exec_Hash;
    kept_all.
Qed.

Lemma kept_executeWithContext_body context statements :
  keeps R (executeWithContext_body exec Execute context statements).
Proof.
  intros s. unfold executeWithContext_body.
  assert (keeps (on_vm R) (statements_loop exec Execute context statements))
    as Hloop.
  { pose proof kept_executeStatement. unfold statements_loop. kept_all. }
  specialize (Hloop (s, entry)).
  destruct (statements_loop exec Execute context statements (s, entry))
    as [[s' l] o].
  unfold on_vm in Hloop. simpl in *.
  etransitivity; [exact Hloop | apply R_stack].
Qed.

Lemma kept_Run_body input : keeps R (Run_body exec input).
Proof. unfold Run_body. kept_all. Qed.

Lemma kept_bindArgs self formals args :
  keeps R (bindArgs exec self formals args).
Proof.
  revert args. induction formals as [ | formal formals IH]; intros args;
    simpl; kept_all.
Qed.

Lemma kept_Execute_body method self args :
  keeps R (Execute_body exec Execute (Run_body exec) method self args).
Proof.
  pose proof kept_Run_body. pose proof kept_bindArgs.
  unfold Execute_body, require, require_from, cannot_load,
    RubyMethod_closure.
  repeat first
    [ kept_step
    | match goal with
      | |- keeps R (λ s, let '(h, o) := builtin_exec _ _ _ _ _ in _) =>
          let s := fresh "s" in
          intros s; destruct (builtin_exec _ _ _ _ _); apply R_heap
      end ].
Qed.

End Steps.

(** A relation that contains every update the evaluator makes is kept
    by every evaluation. *)
Lemma kept_by_evaluation fuel :
  (∀ context statements, keeps R (executeWithContext fuel context statements))
  ∧ (∀ method self args, keeps R (Execute fuel method self args)).
Proof.
  induction fuel as [ | n [IHexec IHExecute]]; split; intros; simpl.
  - apply keeps_out_of_fuel; exact _.
  - apply keeps_out_of_fuel; exact _.
  - apply kept_executeWithContext_body; assumption.
  - apply kept_Execute_body; assumption.
Qed.

Lemma kept_by_Run fuel input : keeps R (Run fuel input).
Proof. apply kept_Run_body, kept_by_evaluation. Qed.

End Kept.

Section Bindings.
Context `{Builtins} `{Host}.

#[local] Instance bindings_kept_preorder : PreOrder bindings_kept.
Proof.
  split.
  - intros s. repeat split; reflexivity.
  - intros s1 s2 s3 (Ha & Hb & Hc & Hd & He) (Ha' & Hb' & Hc' & Hd' & He').
    repeat split; etransitivity; eassumption.
Qed.

(** X6: No evaluation ever unbinds a name: whatever is bound in the Object
    Space, the globals, the symbols, the classes or the modules before a
    sequence of statements, a method or a run is still bound afterwards,
    possibly to another value, whatever the outcome. *)
Theorem evaluation_never_unbinds_a_name
    fuel context statements method self args input s :
  bindings_kept s (executeWithContext fuel context statements s).1
  ∧ bindings_kept s (Execute fuel method self args s).1
  ∧ bindings_kept s (Run fuel input s).1.
Proof.
  assert (∀ (m : gmap string Value) k v, dom m ⊆ dom (<[k := v]> m)) as Hdom.
  { intros m k v. rewrite dom_insert. set_solver. }
  assert (∀ fuel, (∀ context statements,
                     keeps bindings_kept
                       (executeWithContext fuel context statements))
                  ∧ (∀ method self args,
                       keeps bindings_kept (Execute fuel method self args)))
    as Hkept.
  { intros n. apply kept_by_evaluation; try exact _;
      intros; repeat split; simpl; first [ reflexivity | apply Hdom ]. }
  split; [apply Hkept | ]. split; [apply Hkept | ].
  apply kept_by_Run; try exact _;
    intros; repeat split; simpl; first [ reflexivity | apply Hdom ].
Qed.

End Bindings.

(** ** Sequences of statements *)

Ltac go :=
  unfold leave, conclude, inVM, zoom, withProvider, onHeap, update, deref,
    nil_dereference, getVM, getLocals, setReturnValue, setReturnErr,
    defer_Shift, return_locals, next, assert_type;
  unfold bindc, bind, get, modify, ret, panic; simpl.

Section Sequences.
Context `{Builtins} `{Host}.

(** A call of [executeWithContext] is its loop, left. *)
Lemma executeWithContext_leave fuel context statements s :
  executeWithContext (S fuel) context statements s
  = leave (statements_loop (executeWithContext fuel) (Execute fuel)
             context statements (s, entry)).
Proof.
  simpl. unfold executeWithContext_body, leave.
  destruct (statements_loop _ _ _ _ _) as [[s' l] o]. reflexivity.
Qed.

Lemma statements_nil exec Execute context sl :
  statements_loop exec Execute context [] sl
  = (sl, Return (returnValue sl.2, returnErr sl.2)).
Proof. destruct sl. reflexivity. Qed.

Lemma leave_entry (s : vm) v e :
  leave (s, {| returnValue := v; returnErr := e; deferred := 0 |},
         Return (v, e)) = (s, Return (v, e)).
Proof. unfold leave. simpl. destruct s. reflexivity. Qed.

(** An assignment whose right-hand side evaluates binds the name and
    goes on to the next statement. *)
Lemma Assignment_step fuel context RHS name s s1 v l :
  executeWithContext fuel context [RHS] s = (s1, Return (v, None)) →
  executeStatement (executeWithContext fuel) (Execute fuel) context
    (Assignment (BareReference name) RHS) (s, l)
  = ((set_ObjectSpace <[name := v]> s1, l), Return (Next tt))
  ∧ executeStatement (executeWithContext fuel) (Execute fuel) context
      (Assignment (GlobalVariable name) RHS) (s, l)
    = ((set_CurrentGlobals <[name := v]> s1, l), Return (Next tt)).
Proof.
  intros HRHS. split; simpl; unfold exec_Assignment; go;
    rewrite HRHS; reflexivity.
Qed.

(** X7: Assignment and read make a round trip.  Once the right-hand side
    evaluated to [v], assigning it to a global variable and reading the
    variable gives [v]; so does assigning it to a bare name and reading
    the name, when the current local scope has no variable of that
    name. *)
Theorem assignment_then_read_gives_the_value
    fuel context RHS name s s1 v :
  executeWithContext fuel context [RHS] s = (s1, Return (v, None)) →
  executeWithContext (S fuel) context
    [Assignment (GlobalVariable name) RHS; GlobalVariable name] s
  = (set_CurrentGlobals <[name := v]> s1, Return (v, None))
  ∧ (retrieve name (localVariableStack s) = None →
     executeWithContext (S fuel) context
       [Assignment (BareReference name) RHS; BareReference name] s
     = (set_ObjectSpace <[name := v]> s1, Return (v, None))).
Proof.
  intros HRHS.
  destruct (Assignment_step fuel context RHS name s s1 v entry HRHS)
    as [Hbare Hglobal].
  split.
  - rewrite executeWithContext_leave.
    rewrite (statements_cons _ _ _ _ _ _ _ Hglobal).
    unfold statements_loop. simpl. unfold exec_GlobalVariable, index. go.
    rewrite lookup_insert_eq. simpl. destruct s1. reflexivity.
  - intros Hlocal.
    assert (localVariableStack s1 = localVariableStack s) as Hscopes.
    { pose proof (keeps_executeWithContext fuel context [RHS] s) as Hk.
      rewrite HRHS in Hk. apply Hk. }
    rewrite executeWithContext_leave.
    rewrite (statements_cons _ _ _ _ _ _ _ Hbare).
    unfold statements_loop. simpl. unfold exec_BareReference. go.
    rewrite Hscopes, Hlocal, lookup_insert_eq. simpl.
    destruct s1. reflexivity.
Qed.

(** X8: A local variable hides what is assigned to its name.  Inside a
    method, an assignment to a bare name binds it in the Object Space
    and never in the local scope, while a read looks in the local scope
    first: after assigning [v] to the name of an argument, reading the
    name still gives the argument. *)
Theorem local_variable_hides_the_assignment
    fuel context RHS name s s1 v a :
  executeWithContext fuel context [RHS] s = (s1, Return (v, None)) →
  retrieve name (localVariableStack s) = Some a →
  executeWithContext (S fuel) context
    [Assignment (BareReference name) RHS; BareReference name] s
  = (set_ObjectSpace <[name := v]> s1, Return (a, None))
  ∧ localVariableStack s1 = localVariableStack s.
Proof.
  intros HRHS Hlocal.
  destruct (Assignment_step fuel context RHS name s s1 v entry HRHS)
    as [Hbare _].
  assert (localVariableStack s1 = localVariableStack s) as Hscopes.
  { pose proof (keeps_executeWithContext fuel context [RHS] s) as Hk.
    rewrite HRHS in Hk. apply Hk. }
  split; [ | assumption].
  rewrite executeWithContext_leave.
  rewrite (statements_cons _ _ _ _ _ _ _ Hbare).
  unfold statements_loop. simpl. unfold exec_BareReference. go.
  rewrite Hscopes, Hlocal. simpl. destruct s1. reflexivity.
Qed.

(** X9: A name error does not stop the sequence it occurs in.  When a bare
    name resolves nowhere, the error is kept in the error variable, the
    value is set to nil, and the statements after the read are evaluated
    all the same; a sequence can thus return a value together with an
    error, as a failed read followed by a global-variable read does. *)
Theorem name_error_does_not_stop_the_sequence
    fuel context c cls name rest other s :
  resolve_bare_name s name = None →
  context = Some c →
  Value_Class (heap s) c = Some cls →
  let he := name_error name c cls s in
  let s' := set_heap (λ _, he.1) s in
  executeWithContext (S fuel) context (BareReference name :: rest) s
  = leave (statements_loop (executeWithContext fuel) (Execute fuel)
             context rest
             (s', {| returnValue := None;
                     returnErr := Some (RubyError he.2);
                     deferred := 0 |}))
  ∧ executeWithContext (S fuel) context
      [BareReference name; GlobalVariable other] s
    = (s', Return (index (CurrentGlobals s) other, Some (RubyError he.2))).
Proof.
  intros Hnone -> Hcls he s'.
  assert (executeStatement (executeWithContext fuel) (Execute fuel) (Some c)
            (BareReference name) (s, entry)
          = ((s', {| returnValue := None;
                     returnErr := Some (RubyError he.2);
                     deferred := 0 |}), Return (Next tt))) as Hstep.
  { simpl. unfold exec_BareReference, name_undefined. go.
    unfold resolve_bare_name in Hnone.
    destruct (retrieve name (localVariableStack s)); [discriminate | ].
    destruct (ObjectSpace s !! name); [discriminate | ].
    destruct (CurrentClasses s !! name); [discriminate | ].
    destruct (CurrentModules s !! name); [discriminate | ].
    simpl. rewrite Hcls. simpl. subst s' he. unfold name_error.
    destruct (NewNameError _ _ _ _ _) as [h e]. reflexivity. }
  split.
  - rewrite executeWithContext_leave.
    rewrite (statements_cons _ _ _ _ _ _ _ Hstep). reflexivity.
  - rewrite executeWithContext_leave.
    rewrite (statements_cons _ _ _ _ _ _ _ Hstep).
    unfold statements_loop. simpl. unfold exec_GlobalVariable. go.
    subst s'. destruct s. reflexivity.
Qed.

End Sequences.

(** ** Outcomes of begin and rescue *)

Section BeginOutcomes.
Context `{Builtins} `{Host}.

(** X10: A begin block whose protected body returns no error evaluates no
    rescue clause and leaves the state of the body; the value of the
    body is dropped, the block on its own evaluates to nil.  A body that
    returns an error that is not a Ruby value, such as the parse error
    of a required file, cannot be rescued: the type assertion of
    vm.go:485 panics. *)
Theorem Begin_without_a_Ruby_error fuel context Body rescues s s1 v e :
  executeWithContext fuel context Body s = (s1, Return (v, e)) →
  (∀ original, e ≠ Some (RubyError original)) →
  executeWithContext (S fuel) context [Begin Body rescues] s
  = (s1, match e with
         | None => Return (None, None)
         | Some _ => Panic "interface conversion: error is not builtins.Value"
         end).
Proof.
  intros Hbody Hvalue. rewrite single_statement. simpl.
  unfold exec_Begin. go. rewrite Hbody. simpl.
  destruct e as [[original | file | msg] | ]; simpl;
    try (destruct s1; reflexivity).
  destruct (Hvalue original eq_refl).
Qed.

(** X11: When no rescue clause declares a class name that textually equals
    the display string of the raised error, no recovery body is
    evaluated and the error propagates out of the begin block. *)
Theorem Begin_unmatched_error_propagates
    fuel context Body rescues original s s1 v :
  Forall (λ n, is_Rescue n = true) rescues →
  executeWithContext fuel context Body s
    = (s1, Return (v, Some (RubyError original))) →
  Forall (λ h : string * list Node, h.1 ≠ Value_String (heap s1) original)
    (handlers rescues) →
  executeWithContext (S fuel) context [Begin Body rescues] s
  = (s1, Return (None, Some (RubyError original))).
Proof.
  intros Hall Hbody Hunmatched.
  rewrite (Begin_raises _ _ _ _ _ _ _ _ Hall Hbody).
  rewrite <- (app_nil_r (handlers rescues)).
  rewrite rescue_search_skip by assumption. reflexivity.
Qed.

(** X12: The first handler whose class name matches and whose recovery body
    succeeds handles the error: the begin block returns no error, and
    the handlers after it are not evaluated, whether they match or
    not. *)
Theorem Begin_first_successful_recovery_handles
    fuel context Body rescues skipped name Recovery rest original
    s s1 s2 v v1 :
  Forall (λ n, is_Rescue n = true) rescues →
  handlers rescues = (skipped ++ (name, Recovery) :: rest)%list →
  executeWithContext fuel context Body s
    = (s1, Return (v, Some (RubyError original))) →
  Forall (λ h : string * list Node, h.1 ≠ Value_String (heap s1) original)
    skipped →
  name = Value_String (heap s1) original →
  executeWithContext fuel context Recovery s1 = (s2, Return (v1, None)) →
  executeWithContext (S fuel) context [Begin Body rescues] s
  = (s2, Return (None, None)).
Proof.
  intros Hall Hhandlers Hbody Hskipped Hname Hrecovery.
  rewrite (Begin_raises _ _ _ _ _ _ _ _ Hall Hbody), Hhandlers.
  rewrite rescue_search_skip by assumption.
  cbn [rescue_search]. unfold bind at 1, get.
  destruct (decide (name = Value_String (heap s1) original)); [ | contradiction].
  unfold bind at 1. rewrite Hrecovery. reflexivity.
Qed.

End BeginOutcomes.

(** ** Calls *)

Section Calls.
Context `{Builtins} `{Host}.

(** X13: A call whose explicit target evaluates to nil is not resolved: it
    returns at once the no-method error built from the name of the
    method and from a new instance of the class registered as [Nil],
    with the rendering of the call stack; its arguments are never
    evaluated. *)
Theorem call_on_nil_is_a_no_method_error
    fuel context target Func Args s s1 nilClass h nilValue e cls :
  executeWithContext fuel context [target] s = (s1, Return (None, None)) →
  index (CurrentClasses s1) "Nil" = Some nilClass →
  Class_New nilClass (ClassWithName s1) (heap s1) = (h, (Some nilValue, e)) →
  Value_Class h nilValue = Some cls →
  let he := NewNoMethodError Func (Value_String h nilValue)
              (Value_String h cls) (CallStack_String (stack s1)) h in
  executeWithContext (S fuel) context
    [CallExpression (Some target) Func Args] s
  = (set_heap (λ _, he.1) s1, Return (None, Some (RubyError he.2))).
Proof.
  intros Htarget HNil Hnew Hcls he. subst he.
  rewrite single_statement. simpl.
  unfold exec_CallExpression, nil_target. go.
  rewrite Htarget. simpl. rewrite HNil. simpl. rewrite Hnew. simpl.
  rewrite Hcls. simpl.
  destruct (NewNoMethodError _ _ _ _ _) as [h' e']. simpl.
  destruct s1. reflexivity.
Qed.

(** X14: A call with an explicit receiver never reaches a private method:
    when the public lookup on the receiver fails, its error is the
    result of the call, the private lookup is not attempted, no argument
    is evaluated and no frame is pushed. *)
Theorem explicit_receiver_never_reaches_private_methods
    fuel context target Func Args s s1 receiver h m e :
  executeWithContext fuel context [target] s
    = (s1, Return (Some receiver, None)) →
  Value_Method receiver Func (heap s1) = (h, (m, Some e)) →
  executeWithContext (S fuel) context
    [CallExpression (Some target) Func Args] s
  = (set_heap (λ _, h) s1, Return (None, Some e)).
Proof.
  intros Htarget Hlookup.
  rewrite single_statement. simpl.
  unfold exec_CallExpression, resolve. go.
  rewrite Htarget. simpl. rewrite Hlookup. simpl.
  destruct s1. reflexivity.
Qed.

(** X15: A call without a receiver is sent to the current context and falls
    back on its private methods; when both lookups fail, the error of
    the private lookup is the result of the call, and no argument is
    evaluated and no frame is pushed. *)
Theorem unresolved_call_evaluates_no_argument
    fuel context c Func Args s h m e h' m' e' :
  context = Some c →
  Value_Method c Func (heap s) = (h, (m, Some e)) →
  Value_PrivateMethod c Func h = (h', (m', Some e')) →
  executeWithContext (S fuel) context [CallExpression None Func Args] s
  = (set_heap (λ _, h') s, Return (None, Some e')).
Proof.
  intros -> Hpublic Hprivate.
  rewrite single_statement. simpl.
  unfold exec_CallExpression, resolve. go.
  rewrite Hpublic. simpl. rewrite Hprivate. simpl.
  destruct s. reflexivity.
Qed.

(** *** The scope of a method body *)

Lemma bound_scope_snoc Args name value :
  bound_scope (Args ++ [(name, value)]) = <[name := value]> (bound_scope Args).
Proof. unfold bound_scope. rewrite fold_left_app. reflexivity. Qed.

(** A name that no argument has is not in the scope. *)
Lemma bound_scope_other Args name :
  name ∉ Args.*1 → bound_scope Args !! name = None.
Proof.
  induction Args as [ | [n v] Args IH] using rev_ind; intros Hname.
  - apply lookup_empty.
  - rewrite bound_scope_snoc. rewrite fmap_app in Hname. simpl in Hname.
    rewrite lookup_insert_ne.
    + apply IH. intros Hin. apply Hname, elem_of_app. left. assumption.
    + intros ->. apply Hname, elem_of_app. right. left.
Qed.

(** Storing the arguments fills the topmost scope in order. *)
Lemma store_arguments Args sc scopes s :
  localVariableStack s = sc :: scopes →
  range Args
    (λ (_ : unit) (arg : string * Value),
       modify (set_localVariableStack (store arg.1 arg.2)) ;;
       ret (Next tt)) tt s
  = (set_localVariableStack
       (λ _, fold_left (λ sc arg, <[arg.1 := arg.2]> sc) Args sc :: scopes) s,
     Return (Next tt)).
Proof.
  revert sc s. induction Args as [ | [n v] Args IH]; intros sc s Hs.
  - simpl. unfold ret. rewrite <- Hs. destruct s. reflexivity.
  - cbn [range fold_left]. unfold bindc, bind at 1. unfold bind at 1, modify.
    unfold ret at 1.
    rewrite (IH (<[n := v]> sc)); [ | simpl; rewrite Hs; reflexivity].
    destruct s. reflexivity.
Qed.

(** The closure of a user-defined method runs the body with one more
    scope, which holds the arguments and nothing else, and pops that
    scope whatever the body did. *)
Lemma RubyMethod_closure_scope exec self Args Body s :
  RubyMethod_closure exec self Args Body s
  = (set_localVariableStack shift
       (exec self Body
          (set_localVariableStack (λ l, bound_scope Args :: l) s)).1,
     (exec self Body
        (set_localVariableStack (λ l, bound_scope Args :: l) s)).2).
Proof.
  unfold RubyMethod_closure, bind at 1, modify, defer_. unfold bind at 1.
  erewrite store_arguments; [ | reflexivity].
  unfold bound_scope.
  match goal with
  | |- context [exec self Body ?a] =>
      match goal with
      | |- context [(exec self Body ?b).1] =>
          replace a with b by (destruct s; reflexivity)
      end
  end.
  destruct (exec self Body _) as [s' o]. reflexivity.
Qed.

Lemma BareReference_resolved fuel context name s v :
  resolve_bare_name s name = Some v →
  executeWithContext (S fuel) context [BareReference name] s
  = (s, Return (v, None)).
Proof.
  unfold resolve_bare_name. intros Hv.
  rewrite single_statement. simpl. unfold exec_BareReference. go.
  destruct (retrieve name (localVariableStack s)) as [v1 | ];
    [ | destruct (ObjectSpace s !! name) as [v2 | ];
        [ | destruct (CurrentClasses s !! name) as [v3 | ];
            [ | destruct (CurrentModules s !! name) as [v4 | ];
                [ | discriminate ] ] ] ];
    simplify_eq; simpl; destruct s; reflexivity.
Qed.

Lemma BareReference_unresolved fuel c cls name s :
  resolve_bare_name s name = None →
  Value_Class (heap s) c = Some cls →
  executeWithContext (S fuel) (Some c) [BareReference name] s
  = (set_heap (λ _, (name_error name c cls s).1) s,
     Return (None, Some (RubyError (name_error name c cls s).2))).
Proof.
  unfold resolve_bare_name. intros Hnone Hcls.
  rewrite single_statement. simpl.
  unfold exec_BareReference, name_undefined. go.
  destruct (retrieve name (localVariableStack s)); [discriminate | ].
  destruct (ObjectSpace s !! name); [discriminate | ].
  destruct (CurrentClasses s !! name); [discriminate | ].
  destruct (CurrentModules s !! name); [discriminate | ].
  simpl. rewrite Hcls. simpl. unfold name_error.
  destruct (NewNameError _ _ _ _ _) as [h e]. simpl.
  destruct s. reflexivity.
Qed.

(** Resolution in the scope of a method body: the scopes of the caller
    play no part. *)
Lemma resolve_in_method_scope Args name s :
  resolve_bare_name
    (set_localVariableStack (λ l, bound_scope Args :: l) s) name
  = match bound_scope Args !! name with
    | Some v => Some v
    | None =>
        match ObjectSpace s !! name with
        | Some v => Some v
        | None =>
            match CurrentClasses s !! name with
            | Some v => Some v
            | None => CurrentModules s !! name
            end
        end
    end.
Proof. destruct s. reflexivity. Qed.

(** X16: A method body does not see the local variables of its caller.  A
    bare name that is an argument reads the argument; a bare name that
    is no argument and is bound in none of the registries raises a name
    error in the body, whatever the local variable stack of the caller
    holds, and in both cases the caller finds its scopes as they
    were. *)
Theorem method_body_does_not_see_the_callers_locals
    fuel self Args name s :
  (∀ a, bound_scope Args !! name = Some a →
     RubyMethod_closure (executeWithContext (S fuel)) self Args
       [BareReference name] s
     = (s, Return (a, None)))
  ∧ (name ∉ Args.*1 →
     ObjectSpace s !! name = None → CurrentClasses s !! name = None →
     CurrentModules s !! name = None →
     ∀ c cls, self = Some c → Value_Class (heap s) c = Some cls →
       RubyMethod_closure (executeWithContext (S fuel)) self Args
         [BareReference name] s
       = (set_heap (λ _, (name_error name c cls s).1) s,
          Return (None, Some (RubyError (name_error name c cls s).2)))).
Proof.
  split.
  - intros a Hbound. rewrite RubyMethod_closure_scope.
    rewrite (BareReference_resolved _ _ _ _ a).
    + destruct s. reflexivity.
    + rewrite resolve_in_method_scope, Hbound. reflexivity.
  - intros Hname HObjectSpace HClasses HModules c cls -> Hcls.
    rewrite RubyMethod_closure_scope.
    rewrite (BareReference_unresolved _ _ cls).
    + unfold name_error. simpl. destruct s. reflexivity.
    + rewrite resolve_in_method_scope.
      rewrite (bound_scope_other _ _ Hname), HObjectSpace, HClasses.
      exact HModules.
    + exact Hcls.
Qed.

End Calls.

(** ** Loading files and aliasing methods *)

Section Loading.
Context `{Builtins} `{Host}.

(** [require] goes past the load-path entries that hold no readable
    file of that name. *)
Lemma require_passes_over Run fileName skipped rest s :
  Forall (passed_over s fileName) skipped →
  range (skipped ++ rest) (λ _ pathStr, require_from Run fileName pathStr) tt s
  = range rest (λ _ pathStr, require_from Run fileName pathStr) tt s.
Proof.
  induction 1 as [ | p skipped (dir & -> & Hstr & Hno) _ IH]; [reflexivity | ].
  cbn [app range]. unfold bindc, bind at 1, require_from, assert_type.
  unfold bind at 1 2, get. cbn [fst snd]. rewrite Hstr.
  unfold ret at 1. unfold bind at 1. cbn [fst snd].
  destruct (os_Open _) eqn:Hopen.
  - destruct Hno as [Hno | Hno]; [congruence | ]. rewrite Hno.
    unfold ret at 1. exact IH.
  - unfold ret at 1. exact IH.
Qed.

Lemma Execute_step fuel method self args :
  Execute (S fuel) method self args
  = Execute_body (executeWithContext fuel) (Execute fuel)
      (Run_body (executeWithContext fuel)) method self args.
Proof. reflexivity. Qed.

(** X17: [require] loads the first file it finds in load-path order.  Going
    through the entries of the load path, past those under which the
    file cannot be opened or read, it runs the contents of the first
    file it can read, with the path of that file as the current file
    name; the entries after it are not looked at.  It then puts the file
    name back and answers the error of that run, or a new instance of
    [True]. *)
Theorem require_loads_the_first_file_found
    fuel method loadPath lp self str args s skipped dir rest contents :
  Method_Impl (heap s) method = Some (NativeMethod (main_require loadPath)) →
  is_StringValue (heap s) str = true →
  Value_String (heap s) str ≠ "rubygems" →
  loadPath = Some lp →
  is_Array (heap s) lp = true →
  Array_Members (heap s) lp = (skipped ++ Some dir :: rest)%list →
  Forall (passed_over s (Value_String (heap s) str)) skipped →
  is_StringValue (heap s) dir = true →
  let fullPath := filepath_Join (Value_String (heap s) dir)
                    (Value_String (heap s) str ++ ".rb") in
  os_Open fullPath = true →
  ioutil_ReadAll fullPath = Some contents →
  Execute (S fuel) (Some method) self (Some str :: args) s
  = loaded (currentFilename s)
      (Run fuel contents (set_currentFilename (λ _, fullPath) s)).
Proof.
  intros Himpl Hstr Hname -> Harray Hmembers Hskipped Hdir fullPath
    Hopen Hread.
  rewrite Execute_step.
  unfold Execute_body, require, deref, assert_type, bind, ret, get.
  cbn [fst snd]. rewrite Himpl, Hstr.
  destruct (String.eqb_spec (Value_String (heap s) str) "rubygems");
    [contradiction | ].
  rewrite Harray, Hmembers, (require_passes_over _ _ _ _ _ Hskipped).
  cbn [range]. unfold bindc, bind at 1, require_from, assert_type.
  unfold bind at 1 2, get. cbn [fst snd]. rewrite Hdir.
  unfold ret at 1. unfold bind at 1. cbn [fst snd].
  fold fullPath. rewrite Hopen, Hread.
  unfold loaded, defer_, Run, bind, modify, ret. cbn [fst snd].
  destruct (Run_body (executeWithContext fuel) contents _)
    as [s' [[v [e | ]] | msg | ]]; simpl; try reflexivity.
  unfold deref, withProvider, onHeap, panic, nil_dereference.
  destruct (index (CurrentClasses s') "True") as [cls | ]; simpl;
    [ | reflexivity].
  destruct (Class_New cls _ _) as [h r]. reflexivity.
Qed.

(** X18: [alias] needs a module as its context and an existing method.  With
    a context that is not a [*RubyModule] the statement panics.  In a module, aliasing a method the
    module does not have returns at once the name error for the source
    name, with the display string of the module as receiver and as
    class; aliasing one it has adds, under the new name, a native method
    that forwards to the method found now, and executing that method
    executes the original. *)
Theorem Alias_needs_a_module_and_a_method fuel context c From To s :
  context = Some c →
  (is_RubyModule (heap s) c = false →
   executeWithContext (S fuel) context [Alias From To] s
   = (s, Panic "interface conversion"))
  ∧ (is_RubyModule (heap s) c = true →
     ∀ h m e, Module_InstanceMethod c From (heap s) = (h, (m, Some e)) →
       let he := NewNameError From (Value_String h c) (Value_String h c)
                   (CallStack_String (stack s)) h in
       executeWithContext (S fuel) context [Alias From To] s
       = (set_heap (λ _, he.1) s, Return (None, Some (RubyError he.2))))
  ∧ (is_RubyModule (heap s) c = true →
     ∀ h m, Module_InstanceMethod c From (heap s) = (h, (m, None)) →
       let hw := NewNativeMethod To (ClassWithName s) (alias_forward m) h in
       executeWithContext (S fuel) context [Alias From To] s
       = (set_heap (λ _, Module_AddInstanceMethod c (Some hw.2) hw.1) s,
          Return (None, None)))
  ∧ (∀ w m self args s',
       Method_Impl (heap s') w = Some (NativeMethod (alias_forward m)) →
       Execute (S (S fuel)) (Some w) self args s'
       = Execute (S fuel) m self args s').
Proof.
  intros ->. repeat split.
  - intros Hmodule. rewrite single_statement. simpl. unfold exec_Alias. go.
    rewrite Hmodule. simpl. destruct s. reflexivity.
  - intros Hmodule h m e Hlookup. rewrite single_statement. simpl.
    unfold exec_Alias. go. rewrite Hmodule. simpl. rewrite Hlookup. simpl.
    destruct (NewNameError _ _ _ _ _) as [h' e']. simpl.
    destruct s. reflexivity.
  - intros Hmodule h m Hlookup. rewrite single_statement. simpl.
    unfold exec_Alias. go. rewrite Hmodule. simpl. rewrite Hlookup. simpl.
    destruct (NewNativeMethod _ _ _ _) as [h' w]. simpl.
    destruct s. reflexivity.
  - intros w m self args s' Himpl.
    rewrite Execute_step. unfold Execute_body at 1, deref, bind, ret, get.
    cbn [fst snd]. rewrite Himpl. reflexivity.
Qed.

End Loading.

(** ** Literals, definitions and arguments *)

Section Literals.
Context `{Builtins} `{Host}.





End Literals.

(** ** The properties at work on the reference implementation *)

(** A lookup that failed with [e] is its heap and value with [e]. *)
Lemma failed_eq {H A} (x : H * (A * option goerr)) e :
  x.2.2 = Some e → x = (x.1, (x.2.1, Some e)).
Proof. destruct x as [h [a e']]. simpl. congruence. Qed.

(** A lookup or construction that gave [a] is its heap and error with
    [a]. *)
Lemma gave_eq {H B} (x : H * (option ref * B)) a :
  x.2.1 = Some a → x = (x.1, (Some a, x.2.2)).
Proof. destruct x as [h [a' e]]. simpl. congruence. Qed.


Section Scenes.
Import RefImpl Examples Scenarios.
#[local] Existing Instance machine.

(** Goes through the classes registered at start-up: [Hk] says that a
    class is registered, [Hname] that it has a given name; [found]
    concludes for the classes that have it. *)
Ltac registered Hk found Hname :=
  apply elem_of_map_to_list in Hk; vm_compute in Hk;
  repeat (apply elem_of_cons in Hk as [Hk | Hk];
          [injection Hk as ? ?; subst;
           first [vm_compute in Hname; discriminate Hname | found] | ]);
  inversion Hk.

Lemma GetClass_witness :
  let visited := map_to_list (CurrentClasses boot) in
  (GetClass Class_Name visited "Nil" boot = Return (Some 15%positive, None)
   ∨ GetClass Class_Name visited "Nil" boot
     = Return (None, Some (GoError "Class 'Nil' not found")))
  ∧ ∀ visited', visited' ≡ₚ visited →
      GetClass Class_Name visited' "Nil" boot
      = GetClass Class_Name visited "Nil" boot.
Proof.
  intros visited.
  assert (∀ k, CurrentClasses boot !! k ≠ Some None) as Hnil.
  { intros k Hk. apply elem_of_map_to_list in Hk. vm_compute in Hk.
    repeat (apply elem_of_cons in Hk as [Hk | Hk]; [discriminate Hk | ]).
    inversion Hk. }
  destruct (GetClass_finds_a_registered_class_of_that_name
              Class_Name visited "Nil" boot (reflexivity _) Hnil)
    as [Hfound Hsame].
  split.
  - destruct Hfound as [(c & Hc & _ & Hname & k & Hk) | (Hnone & _)].
    + left. rewrite Hc. registered Hk ltac:(reflexivity) Hname.
    + right. exact Hnone.
  - apply Hsame. intros k k' c c' Hk Hk' Hname Hname'.
    registered Hk ltac:(registered Hk' ltac:(reflexivity) Hname') Hname.
Defined.

Lemma assignment_witness :
  returned (executeWithContext 3 main
              [Assignment (GlobalVariable "x") (ConstantInt 2);
               GlobalVariable "x"] boot)
  = Some (Some 26%positive, None)
  ∧ returned (executeWithContext 3 main
                [Assignment (BareReference "x") (ConstantInt 2);
                 BareReference "x"] boot)
    = Some (Some 26%positive, None).
Proof.
  assert (returned (executeWithContext 2 main [ConstantInt 2] boot)
          = Some (Some 26%positive, None)) as HRHS
    by (vm_compute; reflexivity).
  destruct (assignment_then_read_gives_the_value
              2 main (ConstantInt 2) "x" boot after_two (Some 26%positive)
              (returned_eq (executeWithContext 2 main [ConstantInt 2] boot)
                 _ HRHS)) as [Hglobal Hbare].
  split.
  - rewrite Hglobal. reflexivity.
  - rewrite Hbare; [reflexivity | vm_compute; reflexivity].
Defined.

Lemma hidden_assignment_witness :
  returned (executeWithContext 3 main
              [Assignment (BareReference "x") (ConstantInt 2);
               BareReference "x"] in_method)
  = Some (main, None)
  ∧ main ≠ Some 26%positive.
Proof.
  assert (returned (executeWithContext 2 main [ConstantInt 2] in_method)
          = Some (Some 26%positive, None)) as HRHS
    by (vm_compute; reflexivity).
  destruct (local_variable_hides_the_assignment
              2 main (ConstantInt 2) "x" in_method in_method_after_two
              (Some 26%positive) main
              (returned_eq
                 (executeWithContext 2 main [ConstantInt 2] in_method)
                 _ HRHS)
              ltac:(vm_compute; reflexivity)) as [Hread _].
  split.
  - rewrite Hread. reflexivity.
  - vm_compute. discriminate.
Defined.

Lemma name_error_witness :
  let r := executeWithContext 1 main
             [BareReference "qux"; GlobalVariable "LOAD_PATH"] boot in
  returned r = Some (load_path, Some (RubyError 26%positive))
  ∧ load_path = Some 20%positive.
Proof.
  destruct (name_error_does_not_stop_the_sequence
              0 main 23%positive 2%positive "qux" [] "LOAD_PATH" boot
              ltac:(vm_compute; reflexivity) ltac:(vm_compute; reflexivity)
              ltac:(vm_compute; reflexivity)) as [_ Hboth].
  cbv zeta. rewrite Hboth. split; vm_compute; reflexivity.
Defined.

Lemma Begin_without_error_witness :
  executeWithContext 3 main
    [Begin [ConstantInt 1] [Rescue ["NameError"] [call_on_nil]]] boot
  = (after_one, Return (None, None)).
Proof.
  assert (returned (executeWithContext 2 main [ConstantInt 1] boot)
          = Some (Some 26%positive, None)) as Hbody
    by (vm_compute; reflexivity).
  apply (Begin_without_a_Ruby_error
           2 main [ConstantInt 1] [Rescue ["NameError"] [call_on_nil]]
           boot after_one (Some 26%positive) None
           (returned_eq (executeWithContext 2 main [ConstantInt 1] boot)
              _ Hbody)).
  intros original. discriminate.
Defined.

Lemma Begin_unmatched_witness :
  executeWithContext 6 main
    [Begin [BareReference "qux"] [Rescue ["LoadError"] [ConstantInt 1]]] boot
  = (after_body, Return (None, Some (RubyError 26%positive))).
Proof.
  assert (returned (executeWithContext 5 main [BareReference "qux"] boot)
          = Some (None, Some (RubyError 26%positive))) as Hbody
    by (vm_compute; reflexivity).
  apply (Begin_unmatched_error_propagates
           5 main [BareReference "qux"]
           [Rescue ["LoadError"] [ConstantInt 1]] 26%positive boot
           after_body None).
  - repeat constructor.
  - exact (returned_eq (executeWithContext 5 main [BareReference "qux"] boot)
             _ Hbody).
  - repeat constructor. vm_compute. discriminate.
Defined.

Lemma Begin_handled_witness :
  executeWithContext 6 main [handled] boot = (recovered, Return (None, None)).
Proof.
  assert (returned (executeWithContext 5 main [BareReference "qux"] boot)
          = Some (None, Some (RubyError 26%positive))) as Hbody
    by (vm_compute; reflexivity).
  assert (returned (executeWithContext 5 main [ConstantInt 1] after_body)
          = Some (Some 27%positive, None)) as Hrecovery
    by (vm_compute; reflexivity).
  apply (Begin_first_successful_recovery_handles
           5 main [BareReference "qux"]
           [Rescue ["LoadError"; "NameError"] [ConstantInt 1];
            Rescue ["NameError"] [call_on_nil]]
           [("LoadError", [ConstantInt 1])] "NameError" [ConstantInt 1]
           [("NameError", [call_on_nil])] 26%positive
           boot after_body recovered None (Some 27%positive)).
  - repeat constructor.
  - reflexivity.
  - exact (returned_eq (executeWithContext 5 main [BareReference "qux"] boot)
             _ Hbody).
  - repeat constructor. vm_compute. discriminate.
  - vm_compute. reflexivity.
  - exact (returned_eq
             (executeWithContext 5 main [ConstantInt 1] after_body)
             _ Hrecovery).
Defined.

Lemma call_on_nil_witness :
  raised (executeWithContext 2 main
            [CallExpression (Some (GlobalVariable "unset")) "foo"
               [BareReference "qux"]] boot)
  = Some (DError "NoMethodError" "undefined method 'foo' for #<Nil>:Nil"
            EmptyString).
Proof.
  assert (returned (executeWithContext 1 main [GlobalVariable "unset"] boot)
          = Some (None, None)) as Hunset
    by (vm_compute; reflexivity).
  set (new := Class_New 15%positive (ClassWithName after_unset)
                (heap after_unset)).
  rewrite (call_on_nil_is_a_no_method_error
             1 main (GlobalVariable "unset") "foo" [BareReference "qux"]
             boot after_unset 15%positive new.1 26%positive new.2.2 15%positive
             (returned_eq
                (executeWithContext 1 main [GlobalVariable "unset"] boot)
                _ Hunset)
             ltac:(vm_compute; reflexivity)
             (gave_eq new 26%positive ltac:(vm_compute; reflexivity))
             ltac:(vm_compute; reflexivity)).
  vm_compute. reflexivity.
Defined.

Lemma private_method_witness :
  raised (executeWithContext 3 main
            [CallExpression (Some (BareReference "main")) "f"
               [BareReference "qux"]] with_f)
  = Some (DError "NoMethodError" "undefined method 'f' for #<Object>"
            EmptyString)
  ∧ (Value_PrivateMethod 23%positive "f" (heap with_f)).2
    = (Some 26%positive, None).
Proof.
  assert (returned (executeWithContext 2 main [BareReference "main"] with_f)
          = Some (Some 23%positive, None)) as Htarget
    by (vm_compute; reflexivity).
  set (found := Value_Method 23%positive "f" (heap with_main)).
  split; [ | vm_compute; reflexivity].
  rewrite (explicit_receiver_never_reaches_private_methods
             2 main (BareReference "main") "f" [BareReference "qux"]
             with_f with_main 23%positive found.1 found.2.1
             (RubyError 27%positive)
             (returned_eq
                (executeWithContext 2 main [BareReference "main"] with_f)
                _ Htarget)
             (failed_eq found _ ltac:(vm_compute; reflexivity))).
  vm_compute. reflexivity.
Defined.

Lemma unresolved_call_witness :
  raised (executeWithContext 1 main
            [CallExpression None "nope" [BareReference "qux"]] boot)
  = Some (DError "NoMethodError" "undefined method 'nope' for #<Object>"
            EmptyString).
Proof.
  set (public := Value_Method 23%positive "nope" (heap boot)).
  set (private := Value_PrivateMethod 23%positive "nope" public.1).
  rewrite (unresolved_call_evaluates_no_argument
             0 main 23%positive "nope" [BareReference "qux"] boot
             public.1 public.2.1 (RubyError 26%positive)
             private.1 private.2.1 (RubyError 27%positive)
             ltac:(vm_compute; reflexivity)
             (failed_eq public _ ltac:(vm_compute; reflexivity))
             (failed_eq private _ ltac:(vm_compute; reflexivity))).
  vm_compute. reflexivity.
Defined.

Lemma Alias_witness :
  executeWithContext 1 (Some 2%positive) [Alias "to_s" "inspect"] boot
  = (boot, Panic "interface conversion")
  ∧ raised (executeWithContext 1 (Some 5%positive) [Alias "nope" "other"]
              boot)
    = Some (DError "NameError"
              "undefined local variable or method 'nope' for Comparable:Comparable"
              EmptyString).
Proof.
  split.
  - destruct (Alias_needs_a_module_and_a_method
                0 (Some 2%positive) 2%positive "to_s" "inspect" boot eq_refl)
      as (Hclass & _).
    apply Hclass. vm_compute. reflexivity.
  - set (found := Module_InstanceMethod 5%positive "nope" (heap boot)).
    destruct (Alias_needs_a_module_and_a_method
                0 (Some 5%positive) 5%positive "nope" "other" boot eq_refl)
      as (_ & Hmissing & _).
    specialize (Hmissing ltac:(vm_compute; reflexivity) found.1 found.2.1
                  (RubyError 26%positive)
                  (failed_eq found _ ltac:(vm_compute; reflexivity))).
    cbv zeta in Hmissing. rewrite Hmissing.
    vm_compute. reflexivity.
Defined.




End Scenes.

Section SecondDirectory.
Import RefImpl Examples Scenarios.
#[local] Existing Instance second_machine.

Lemma require_witness :
  let r := Execute 3 require_method main [Some the_string] two_directories in
  returned r = Some (Some 29%positive, None)
  ∧ inspect r.1 (Some 29%positive) = Some DObject
  ∧ currentFilename r.1 = "STDIN".
Proof.
  assert (Forall (passed_over two_directories
                    (Value_String (heap two_directories) the_string))
            [Some 21%positive]) as Hskipped.
  { constructor; [ | constructor]. exists 21%positive.
    split; [reflexivity | ].
    split; [vm_compute; reflexivity | left; vm_compute; reflexivity]. }
  pose proof (require_loads_the_first_file_found
                2 25%positive load_path 20%positive main the_string []
                two_directories [Some 21%positive] 27%positive [] "1"
                ltac:(vm_compute; reflexivity) ltac:(vm_compute; reflexivity)
                ltac:(vm_compute; discriminate)
                ltac:(vm_compute; reflexivity)
                ltac:(vm_compute; reflexivity) ltac:(vm_compute; reflexivity)
                Hskipped ltac:(vm_compute; reflexivity)
                ltac:(vm_compute; reflexivity)
                ltac:(vm_compute; reflexivity)) as Hload.
  change (Some 25%positive) with require_method in Hload.
  cbv zeta. rewrite Hload.
  vm_compute. repeat split; reflexivity.
Defined.

End SecondDirectory.
